(** * Audixa SDK: request dispatch, error taxonomy and the polling loop

    A shallow embedding of [src/client.ts] (class [HttpClient]),
    [src/errors.ts] (class [AudixaError]) and [src/index.ts] (class
    [Audixa]) together with the properties of the natural-language
    specification that concern them.

    JavaScript values are an inductive type, thrown values are kept apart
    from returned ones, and everything the platform decides (what the
    network answers, when time passes, when the caller aborts) is read from
    a script carried by the world state, so every operation is an
    executable function of the world. *)

From Stdlib Require Import ZArith Ascii List Lia Bool.
From Stdlib Require Import DecimalString.
From stdpp Require Import base option list strings.

Set Warnings "-register-all".

Local Open Scope Z_scope.

(** ** JavaScript values *)

Module Js.

(** Numbers are restricted to the integers: HTTP statuses, millisecond
    counts and JSON integers are all the program ever computes with.
    [Num n] stands for the double nearest to [n], which is [n] itself up to
    2^53, the range in which the arithmetic of doubles is exact. *)
Inductive Value : Type :=
| Undefined
| Null
| Boolean (b : bool)
| Num (n : Z)
| Str (s : string)
| Arr (items : list Value)
| Obj (fields : list (string * Value)).

(** [ToBoolean]: the falsy values are [undefined], [null], [false], [0] and
    the empty string. *)
Definition truthy (v : Value) : bool :=
  match v with
  | Undefined | Null => false
  | Boolean b => b
  | Num n => negb (n =? 0)
  | Str s => negb (String.eqb s "")
  | Arr _ | Obj _ => true
  end.

(** [typeof v === "string"]. *)
Definition is_string (v : Value) : bool :=
  match v with Str _ => true | _ => false end.

(** [a || b]: the left operand when it is truthy, else the right one. *)
Definition or (a b : Value) : Value := if truthy a then a else b.

Fixpoint assoc (k : string) (fields : list (string * Value)) : Value :=
  match fields with
  | [] => Undefined
  | (k', v) :: rest => if String.eqb k k' then v else assoc k rest
  end.

(** [v?.k] for the keys the SDK reads ([message], [error], [status], [url],
    [generation_id]): only a plain object can own them; [null] and
    [undefined] short-circuit to [undefined], and primitives and arrays
    have no property of these names. *)
Definition get (v : Value) (k : string) : Value :=
  match v with
  | Obj fields => assoc k fields
  | _ => Undefined
  end.

Definition decimal (n : Z) : string := NilZero.string_of_int (Z.to_int n).

Definition two_52 : Z := 4503599627370496.
Definition two_53 : Z := 9007199254740992.
Definition ten_21 : Z := 1000000000000000000000.

(** The double nearest to the integer [z], for [0 <= z]: 53 significant
    bits, a tie going to the even mantissa. *)
Definition nearest_double (z : Z) : Z :=
  if z <? two_53 then z
  else
    let e := Z.log2 z - 52 in
    let q := Z.shiftr z e in
    let r := z - Z.shiftl q e in
    let half := Z.shiftl 1 (e - 1) in
    let q' := if (half <? r) || ((r =? half) && Z.odd q) then q + 1 else q in
    Z.shiftl q' e.

(** Whether the decimal [c] reads back as the double [d], for
    [two_53 <= d]: [c] lies within half a gap of [d], the ends counting
    when the mantissa of [d] is even; below a power of two the gap is half
    as wide. The bounds are doubled to stay in the integers. *)
Definition reads_as (d c : Z) : bool :=
  let e := Z.log2 d - 52 in
  let q := Z.shiftr d e in
  let above := Z.shiftl 1 e in
  let below := if q =? two_52 then Z.shiftl 1 (e - 1) else above in
  if Z.even q
  then (2 * d - below <=? 2 * c) && (2 * c <=? 2 * d + above)
  else (2 * d - below <? 2 * c) && (2 * c <? 2 * d + above).

(** The multiple of the largest power of ten that reads back as [d], the
    nearer one when two do, the even one when they are as near: the digits
    [Number::toString] prints. [unit] starts at the power of ten of the
    leading digit. *)
Fixpoint shortest (steps : nat) (d unit : Z) : Z :=
  match steps with
  | O => d
  | S steps' =>
      let lower := d / unit * unit in
      let upper := lower + unit in
      match reads_as d lower, reads_as d upper with
      | true, true =>
          if d - lower <? upper - d then lower
          else if upper - d <? d - lower then upper
          else if Z.even (lower / unit) then lower else upper
      | true, false => lower
      | false, true => upper
      | false, false => shortest steps' d (unit / 10)
      end
  end.

Fixpoint strip_zeros (s : string) : string :=
  match s with
  | EmptyString => EmptyString
  | String c rest =>
      let rest' := strip_zeros rest in
      if Ascii.eqb c "0" && String.eqb rest' "" then EmptyString else String c rest'
  end.

(** [d.ddde+x], the form of a number from 10^21 on. *)
Definition exponential (c : Z) : string :=
  let all := decimal c in
  let exponent := decimal (Z.of_nat (String.length all) - 1) in
  match strip_zeros all with
  | String first EmptyString => String first ("e+" +:+ exponent)
  | String first more => String first ("." +:+ more +:+ "e+" +:+ exponent)
  | EmptyString => all
  end.

Definition positive_to_string (z : Z) : string :=
  let d := nearest_double z in
  if Z.log2 d >=? 1024 then "Infinity"
  else
    let n := String.length (decimal d) in
    let c := if d <? two_53 then d else shortest n d (10 ^ (Z.of_nat n - 1)) in
    if c <? ten_21 then decimal c else exponential c.

(** [Number::toString] of the double nearest to [n]: all the digits up to
    2^53, then the shortest digits that read back as the same double,
    padded with zeros below 10^21 and in exponential form from there on. *)
Definition number_to_string (n : Z) : string :=
  if n <? 0 then "-" +:+ positive_to_string (- n) else positive_to_string n.

Fixpoint join (sep : string) (parts : list string) : string :=
  match parts with
  | [] => ""
  | [p] => p
  | p :: rest => p +:+ sep +:+ join sep rest
  end.

Fixpoint has_key (k : string) (fields : list (string * Value)) : bool :=
  match fields with
  | [] => false
  | (k', _) :: rest => String.eqb k k' || has_key k rest
  end.

(** Whether [ToString(v)] returns. It throws a [TypeError] for an object
    that owns a property named [toString] (in a value parsed from JSON such
    a property is never a function, and the inherited [valueOf] gives back
    the object), and for an array that holds such an object, since
    [Array.prototype.join] converts every element that is not [null] or
    [undefined]. *)
Fixpoint has_string_form (v : Value) : bool :=
  match v with
  | Arr items => forallb has_string_form items
  | Obj fields => negb (has_key "toString" fields)
  | _ => true
  end.

(** [ToString] of a value that has a string form, as applied by the
    [Error] constructor, by [searchParams.append] and by template literals.
    Array elements that are [null] or [undefined] print as the empty
    string; an object that owns no [toString] prints as
    ["[object Object]"]. *)
Fixpoint to_string (v : Value) : string :=
  match v with
  | Undefined => "undefined"
  | Null => "null"
  | Boolean true => "true"
  | Boolean false => "false"
  | Num n => number_to_string n
  | Str s => s
  | Arr items =>
      join ","
        (List.map (fun x => match x with
                            | Undefined | Null => ""
                            | _ => to_string x
                            end) items)
  | Obj _ => "[object Object]"
  end.

(** [s.includes(t)] *)
Fixpoint prefix (t s : string) : bool :=
  match t, s with
  | EmptyString, _ => true
  | String a t', String b s' => Ascii.eqb a b && prefix t' s'
  | String _ _, EmptyString => false
  end.

Fixpoint includes (s t : string) : bool :=
  prefix t s ||
  match s with
  | EmptyString => false
  | String _ s' => includes s' t
  end.

(** [v === "lit"] *)
Definition strict_eq_string (v : Value) (lit : string) : bool :=
  match v with Str s => String.eqb s lit | _ => false end.

End Js.

(** ** src/errors.ts *)

Inductive AudixaErrorCode : Type :=
| INVALID_PARAMS
| INVALID_API_KEY
| INSUFFICIENT_CREDITS
| FORBIDDEN
| NOT_FOUND
| UNAUTHORIZED
| NETWORK_ERROR
| TIMEOUT
| UNKNOWN.

Definition getErrorCodeFromStatus (status : Z) : AudixaErrorCode :=
  if status =? 400 then INVALID_PARAMS
  else if status =? 401 then INVALID_API_KEY
  else if status =? 402 then INSUFFICIENT_CREDITS
  else if status =? 403 then FORBIDDEN
  else if status =? 404 then NOT_FOUND
  else UNKNOWN.

(** An instance of [AudixaError]: [name] is always ["AudixaError"]. *)
Record AudixaError : Type := mkAudixaError {
  message : string;
  code : AudixaErrorCode;
  status : option Z;
  response : option Js.Value
}.

(** What a [throw] can carry: an [AudixaError], another [Error] object
    (identified by its [name]), or a value that is no [Error] at all. *)
Inductive Thrown : Type :=
| ThrownAudixa (e : AudixaError)
| ThrownError (name msg : string)
| ThrownValue (v : Js.Value).

(** What the platform (fetch, the body readers) can reject with: it never
    builds an [AudixaError]. *)
Inductive Rejection : Type :=
| RejectError (name msg : string)
| RejectValue (v : Js.Value).

Definition thrown_of (r : Rejection) : Thrown :=
  match r with
  | RejectError n m => ThrownError n m
  | RejectValue v => ThrownValue v
  end.

(** [error.code] of a caught value, when it has one. *)
Definition thrown_kind (t : Thrown) : option AudixaErrorCode :=
  match t with
  | ThrownAudixa e => Some (code e)
  | _ => None
  end.

(** Result of running a piece of code to its end: it returns or throws. *)
Inductive Outcome (A : Type) : Type :=
| Return (a : A)
| Throw (t : Thrown).
Arguments Return {A} a.
Arguments Throw {A} t.

(** How a promise of the platform settles. *)
Inductive Settled (A : Type) : Type :=
| Resolves (a : A)
| Rejects (r : Rejection).
Arguments Resolves {A} a.
Arguments Rejects {A} r.

(** The [TypeError] of a [ToString] that fails; the wording is V8's. *)
Definition cannot_convert : Thrown :=
  ThrownError "TypeError" "Cannot convert object to primitive value".

(** [new AudixaError(message, code, status, response)]: [super(message)]
    stores [ToString(message)], so the constructor throws when the message
    has no string form. The parameter is declared a string, but
    [fromResponse] passes whatever the body holds. *)
Definition AudixaError_new (msg : Js.Value) (c : AudixaErrorCode)
    (st : option Z) (resp : option Js.Value) : Outcome AudixaError :=
  if Js.has_string_form msg
  then Return {| message := Js.to_string msg; code := c;
                 status := st; response := resp |}
  else Throw cannot_convert.

(** The constructor with a string for a message, as everywhere but in
    [fromResponse]: the conversion leaves a string as it is and the
    constructor returns. *)
Definition AudixaError_text (msg : string) (c : AudixaErrorCode)
    (st : option Z) (resp : option Js.Value) : AudixaError :=
  {| message := msg; code := c; status := st; response := resp |}.

Definition status_message (st : Z) : string :=
  "Request failed with status " +:+ Js.number_to_string st.

(** [response?.message || response?.error || `Request failed with status
    ${status}`] *)
Definition fromResponse_message (st : Z) (resp : Js.Value) : Js.Value :=
  Js.or (Js.get resp "message")
    (Js.or (Js.get resp "error") (Js.Str (status_message st))).

(** [AudixaError.fromResponse(status, response)] *)
Definition fromResponse (st : Z) (resp : Js.Value) : Outcome AudixaError :=
  let c := getErrorCodeFromStatus st in
  let msg := fromResponse_message st resp in
  AudixaError_new msg c (Some st) (Some resp).

(** [AudixaError.networkError(originalError)] *)
Definition networkError (original_message : string) : AudixaError :=
  AudixaError_text ("Network error: " +:+ original_message)
    NETWORK_ERROR None None.

(** [AudixaError.timeout()] *)
Definition timeout_error : AudixaError :=
  AudixaError_text "Request timed out" TIMEOUT None None.

(** ** The platform: abort signals, timers, the clock and the network *)

Abbreviation SignalId := nat (only parsing).
Abbreviation TimerId := nat (only parsing).

(** The one callback the SDK hands to [addEventListener] and to the
    request timer is [() => controller.abort()]; it is represented by the
    signal of the controller it aborts. *)
Inductive Handler : Type :=
| AbortOf (target : SignalId).

Record AbortSignal : Type := mkSignal {
  aborted : bool;
  listeners : list Handler
}.

Record Timer : Type := mkTimer {
  due : Z;
  callback : Handler;
  active : bool
}.

(** What can happen while the SDK is suspended in an [await]: time passes,
    or the caller aborts one of their controllers. *)
Inductive Event : Type :=
| Tick (ms : N)
| CallerAborts (s : SignalId).

Inductive Method : Type := GET | POST | PUT | DELETE | PATCH.

(** A [URL] object: the string given to its constructor and the entries
    appended to [searchParams], in order. Serialisation is the platform's. *)
Record URL : Type := mkURL {
  href : string;
  searchParams : list (string * string)
}.

Record FetchCall : Type := mkFetchCall {
  call_url : URL;
  call_method : Method;
  call_headers : list (string * string);
  call_body : option Js.Value;
  call_signal : SignalId
}.

(** A [Response] as the SDK uses it: status line, content type, what
    happens while the body is read, and what [json()] and [text()] give. *)
Record Response : Type := mkResponse {
  resp_status : Z;
  content_type : option string;
  reading : list Event;
  json : Settled Js.Value;
  text : Settled string
}.

(** One HTTP exchange as the network plays it: what happens while the
    request is in flight and how [fetch] settles if nothing aborts it. *)
Record Exchange : Type := mkExchange {
  flight : list Event;
  arrival : Settled Response
}.

(** What happens during one sleep of the polling loop. *)
Record Nap : Type := mkNap {
  oversleep : N;
  nap_aborts : list SignalId
}.

Record World : Type := mkWorld {
  now : Z;
  signals : list AbortSignal;
  timers : list Timer;
  fetches : list FetchCall;
  naps_taken : nat;
  network : nat -> Exchange;
  naps : nat -> Nap;
  url_parses : string -> bool
}.

Definition set_now (t : Z) (w : World) : World :=
  mkWorld t (signals w) (timers w) (fetches w) (naps_taken w)
    (network w) (naps w) (url_parses w).

Definition set_signals (h : list AbortSignal) (w : World) : World :=
  mkWorld (now w) h (timers w) (fetches w) (naps_taken w)
    (network w) (naps w) (url_parses w).

Definition set_timers (ts : list Timer) (w : World) : World :=
  mkWorld (now w) (signals w) ts (fetches w) (naps_taken w)
    (network w) (naps w) (url_parses w).

Definition log_fetch (c : FetchCall) (w : World) : World :=
  mkWorld (now w) (signals w) (timers w) (fetches w ++ [c]) (naps_taken w)
    (network w) (naps w) (url_parses w).

Definition count_nap (w : World) : World :=
  mkWorld (now w) (signals w) (timers w) (fetches w) (S (naps_taken w))
    (network w) (naps w) (url_parses w).

(** *** Abort signals *)

(** [controller.abort()]: a signal that is already aborted stays as it is;
    otherwise the flag is set and the [abort] listeners run in the order
    they were added. The depth of nested listeners is bounded by [fuel]. *)
Fixpoint abort (fuel : nat) (id : SignalId) (heap : list AbortSignal)
    : list AbortSignal :=
  match fuel with
  | O => heap
  | S fuel' =>
      match heap !! id with
      | None => heap
      | Some s =>
          if aborted s then heap
          else
            fold_left
              (fun h handler => match handler with AbortOf t => abort fuel' t h end)
              (listeners s)
              (<[id := mkSignal true (listeners s)]> heap)
      end
  end.

(** Each nesting level aborts a signal that was not aborted before, so the
    number of signals bounds the depth. *)
Definition signal_abort (id : SignalId) (heap : list AbortSignal)
    : list AbortSignal :=
  abort (S (length heap)) id heap.

Definition run_handler (h : Handler) (heap : list AbortSignal)
    : list AbortSignal :=
  match h with AbortOf t => signal_abort t heap end.

(** [signal.aborted] *)
Definition is_aborted (id : SignalId) (heap : list AbortSignal) : bool :=
  match heap !! id with
  | Some s => aborted s
  | None => false
  end.

(** [new AbortController()]: a fresh signal, not aborted, no listeners. *)
Definition AbortController_new (w : World) : SignalId * World :=
  (length (signals w), set_signals (signals w ++ [mkSignal false []]) w).

(** [signal.addEventListener("abort", handler)]: the handler is only
    recorded; nothing runs if the signal has aborted already. *)
Definition addEventListener (id : SignalId) (h : Handler) (w : World) : World :=
  match signals w !! id with
  | Some s =>
      set_signals (<[id := mkSignal (aborted s) (listeners s ++ [h])]> (signals w)) w
  | None => w
  end.

(** *** Timers *)

Definition TIMEOUT_MAX : Z := 2147483647.

(** The delay a timer is armed with: Node takes a delay from 1 to
    [TIMEOUT_MAX] milliseconds as it is, and any other as 1. *)
Definition timer_delay (delay : Z) : Z :=
  if (1 <=? delay) && (delay <=? TIMEOUT_MAX) then delay else 1.

(** [setTimeout(callback, delay)] *)
Definition setTimeout (h : Handler) (delay : Z) (w : World) : TimerId * World :=
  (length (timers w),
   set_timers (timers w ++ [mkTimer (now w + timer_delay delay) h true]) w).

(** [clearTimeout(id)] *)
Definition clearTimeout (id : TimerId) (w : World) : World :=
  match timers w !! id with
  | Some t => set_timers (<[id := mkTimer (due t) (callback t) false]> (timers w)) w
  | None => w
  end.

Definition is_due (t : Z) (tm : Timer) : bool := active tm && (due tm <=? t).

(** The event loop runs every timer that is due, once. *)
Definition run_timers (w : World) : World :=
  let fired := List.filter (is_due (now w)) (timers w) in
  let heap := fold_left (fun h tm => run_handler (callback tm) h) fired (signals w) in
  let rest :=
    List.map (fun tm => if is_due (now w) tm
                        then mkTimer (due tm) (callback tm) false else tm)
             (timers w) in
  set_timers rest (set_signals heap w).

Definition happen (e : Event) (w : World) : World :=
  match e with
  | Tick ms => set_now (now w + Z.of_N ms) w
  | CallerAborts s => set_signals (signal_abort s (signals w)) w
  end.

(** Awaiting an operation that [watch] can abort while [events] happen:
    due timers run first; as soon as [watch] is aborted the operation
    rejects ([true]); when the events are over it settles by itself
    ([false]). *)
Fixpoint in_flight (watch : SignalId) (events : list Event) (w : World)
    : bool * World :=
  let w0 := run_timers w in
  if is_aborted watch (signals w0) then (true, w0)
  else
    match events with
    | [] => (false, w0)
    | e :: rest => in_flight watch rest (happen e w0)
    end.

Definition abort_error : Rejection :=
  RejectError "AbortError" "This operation was aborted".

(** [fetch(url, init)]: the call is logged, the exchange the network has in
    store for it is played, and an abort of [init.signal] rejects it. *)
Definition fetch (call : FetchCall) (w : World) : Settled Response * World :=
  let ex := network w (length (fetches w)) in
  let '(stopped, w1) := in_flight (call_signal call) (flight ex) (log_fetch call w) in
  if stopped then (Rejects abort_error, w1) else (arrival ex, w1).

(** [response.json()] and [response.text()] under the signal of the call. *)
Definition read_body {A} (watch : SignalId) (events : list Event)
    (result : Settled A) (w : World) : Settled A * World :=
  let '(stopped, w1) := in_flight watch events w in
  if stopped then (Rejects abort_error, w1) else (result, w1).

(** [response.ok] *)
Definition ok (r : Response) : bool :=
  (200 <=? resp_status r) && (resp_status r <=? 299).

(** ** src/client.ts *)

Definition DEFAULT_BASE_URL : string := "https://api.audixa.ai/v2".
Definition DEFAULT_TIMEOUT : Z := 30000.

Record AudixaOptions : Type := mkOptions {
  opt_baseUrl : option string;
  opt_timeout : option Z
}.

Record RequestConfig : Type := mkConfig {
  method : Method;
  path : string;
  body : option Js.Value;
  params : option (list (string * string));
  signal : option SignalId
}.

Record HttpClient : Type := mkClient {
  baseUrl : string;
  timeout : Z;
  apiKey : string
}.

(** [options?.baseUrl || DEFAULT_BASE_URL] *)
Definition baseUrl_or_default (options : option AudixaOptions) : string :=
  match options with
  | Some {| opt_baseUrl := Some b |} => if String.eqb b "" then DEFAULT_BASE_URL else b
  | _ => DEFAULT_BASE_URL
  end.

(** [options?.timeout || DEFAULT_TIMEOUT] *)
Definition timeout_or_default (options : option AudixaOptions) : Z :=
  match options with
  | Some {| opt_timeout := Some t |} => if t =? 0 then DEFAULT_TIMEOUT else t
  | _ => DEFAULT_TIMEOUT
  end.

(** [new HttpClient(apiKey, options)]. The argument is whatever value the
    caller passes; the guard is the constructor's own. *)
Definition HttpClient_new (key : Js.Value) (options : option AudixaOptions)
    : Outcome HttpClient :=
  if negb (Js.truthy key) || negb (Js.is_string key) then
    Throw (ThrownAudixa
             (AudixaError_text "API key is required and must be a string"
                INVALID_PARAMS None None))
  else
    Return {| apiKey := Js.to_string key;
              baseUrl := baseUrl_or_default options;
              timeout := timeout_or_default options |}.

Definition slash : ascii := "/"%char.

(** [s.replace(/\/+$/, "")] *)
Fixpoint strip_trailing_slashes (s : string) : string :=
  match s with
  | EmptyString => EmptyString
  | String c rest =>
      let rest' := strip_trailing_slashes rest in
      if Ascii.eqb c slash && String.eqb rest' "" then EmptyString
      else String c rest'
  end.

(** [s.replace(/^\/+/, "")] *)
Fixpoint strip_leading_slashes (s : string) : string :=
  match s with
  | String c rest => if Ascii.eqb c slash then strip_leading_slashes rest else s
  | EmptyString => EmptyString
  end.

(** The template literal handed to [new URL]. *)
Definition compose_url (base p : string) : string :=
  strip_trailing_slashes base +:+ "/" +:+ strip_leading_slashes p.

(** [combineSignals(userSignal, timeoutSignal)] *)
Definition combineSignals (userSignal timeoutSignal : SignalId) (w : World)
    : SignalId * World :=
  let '(controller, w1) := AbortController_new w in
  let abortHandler := AbortOf controller in
  let w2 := addEventListener userSignal abortHandler w1 in
  let w3 := addEventListener timeoutSignal abortHandler w2 in
  (controller, w3).

Definition request_headers (c : HttpClient) : list (string * string) :=
  [("Content-Type", "application/json"); ("x-api-key", apiKey c)].

Definition is_json (r : Response) : bool :=
  match content_type r with
  | Some ct => Js.includes ct "application/json"
  | None => false
  end.

(** The arguments [request] gives to [fetch]. *)
Definition fetch_call (c : HttpClient) (config : RequestConfig) (url : URL)
    (combinedSignal : SignalId) : FetchCall :=
  {| call_url := url;
     call_method := method config;
     call_headers := request_headers c;
     call_body := match body config with
                  | Some b => if Js.truthy b then Some b else None
                  | None => None
                  end;
     call_signal := combinedSignal |}.

(** The body, parsed as JSON when the content type says so, else as text. *)
Definition parse_body (resp : Response) (combinedSignal : SignalId) (w : World)
    : Settled Js.Value * World :=
  if is_json resp
  then read_body combinedSignal (reading resp) (json resp) w
  else
    match read_body combinedSignal (reading resp) (text resp) w with
    | (Resolves s, w') => (Resolves (Js.Str s), w')
    | (Rejects r, w') => (Rejects r, w')
    end.

(** The [try] block of [request]. *)
Definition request_try (c : HttpClient) (config : RequestConfig) (url : URL)
    (timeoutId : TimerId) (combinedSignal : SignalId) (w : World)
    : Outcome Js.Value * World :=
  match fetch (fetch_call c config url combinedSignal) w with
  | (Rejects r, w1) => (Throw (thrown_of r), w1)
  | (Resolves resp, w1) =>
      let w2 := clearTimeout timeoutId w1 in
      match parse_body resp combinedSignal w2 with
      | (Rejects r, w3) => (Throw (thrown_of r), w3)
      | (Resolves responseData, w3) =>
          if negb (ok resp)
          then
            match fromResponse (resp_status resp) responseData with
            | Return e => (Throw (ThrownAudixa e), w3)
            | Throw t => (Throw t, w3)
            end
          else (Return responseData, w3)
      end
  end.

(** [signal?.aborted] *)
Definition signal_aborted (s : option SignalId) (w : World) : bool :=
  match s with
  | Some id => is_aborted id (signals w)
  | None => false
  end.

Definition cancelled_error : AudixaError :=
  AudixaError_text "Request was cancelled" UNKNOWN None None.

Definition unknown_error : AudixaError :=
  AudixaError_text "An unknown error occurred" UNKNOWN None None.

(** The [catch] block of [request]. *)
Definition request_catch (config : RequestConfig) (timeoutId : TimerId)
    (error : Thrown) (w : World) : Thrown * World :=
  let w1 := clearTimeout timeoutId w in
  match error with
  | ThrownAudixa e => (ThrownAudixa e, w1)
  | ThrownError name msg =>
      if String.eqb name "AbortError" then
        if signal_aborted (signal config) w1
        then (ThrownAudixa cancelled_error, w1)
        else (ThrownAudixa timeout_error, w1)
      else (ThrownAudixa (networkError msg), w1)
  | ThrownValue _ => (ThrownAudixa unknown_error, w1)
  end.

(** What [request] sets up before its [try]: the URL, the timeout
    controller and its timer, and the signal given to [fetch]. *)
Record Prepared : Type := mkPrepared {
  prep_url : URL;
  prep_controller : SignalId;
  prep_timeoutId : TimerId;
  prep_signal : SignalId
}.

Definition request_prepare (c : HttpClient) (config : RequestConfig) (w : World)
    : Outcome Prepared * World :=
  let joined := compose_url (baseUrl c) (path config) in
  if url_parses w joined then
    let url := mkURL joined (match params config with Some ps => ps | None => [] end) in
    let '(controller, w1) := AbortController_new w in
    let '(timeoutId, w2) := setTimeout (AbortOf controller) (timeout c) w1 in
    let '(combinedSignal, w3) :=
      match signal config with
      | Some s => combineSignals s controller w2
      | None => (controller, w2)
      end in
    (Return (mkPrepared url controller timeoutId combinedSignal), w3)
  else (Throw (ThrownError "TypeError" "Invalid URL"), w).

(** [HttpClient.request(config)] *)
Definition request (c : HttpClient) (config : RequestConfig) (w : World)
    : Outcome Js.Value * World :=
  match request_prepare c config w with
  | (Throw t, w0) => (Throw t, w0)
  | (Return p, w0) =>
      match request_try c config (prep_url p) (prep_timeoutId p) (prep_signal p) w0 with
      | (Return v, w1) => (Return v, w1)
      | (Throw error, w1) =>
          let '(t, w2) := request_catch config (prep_timeoutId p) error w1 in
          (Throw t, w2)
      end
  end.

(** ** src/index.ts *)

Record Audixa : Type := mkAudixa { client : HttpClient }.

(** [new Audixa(apiKey, options)] *)
Definition Audixa_new (key : Js.Value) (options : option AudixaOptions)
    : Outcome Audixa :=
  match HttpClient_new key options with
  | Return c => Return (mkAudixa c)
  | Throw t => Throw t
  end.

Inductive TTSModel : Type := base | advance.

Definition TTSModel_string (m : TTSModel) : string :=
  match m with base => "base" | advance => "advance" end.

(** [startTTS(payload, { signal })] *)
Definition startTTS (a : Audixa) (payload : Js.Value) (sig : option SignalId)
    : World -> Outcome Js.Value * World :=
  request (client a)
    {| method := POST; path := "/tts"; body := Some payload;
       params := None; signal := sig |}.

(** [getStatus(generationId, { signal })]. The parameter is declared a
    string; [searchParams.append] stores the string form of the value it
    is given, which for a string is the string itself. *)
Definition getStatus (a : Audixa) (generationId : Js.Value) (sig : option SignalId)
    : World -> Outcome Js.Value * World :=
  request (client a)
    {| method := GET; path := "/status"; body := None;
       params := Some [("generation_id", Js.to_string generationId)];
       signal := sig |}.

(** [getVoices(model, { signal })] *)
Definition getVoices (a : Audixa) (model : TTSModel) (sig : option SignalId)
    : World -> Outcome Js.Value * World :=
  request (client a)
    {| method := GET; path := "/voices"; body := None;
       params := Some [("model", TTSModel_string model)];
       signal := sig |}.

Record GenerateOptions : Type := mkGenerateOptions {
  pollInterval : option Z;
  maxWaitTime : option Z;
  gen_signal : option SignalId
}.

(** Reading a property of, or destructuring, [null] or [undefined] throws. *)
Definition nullish (v : Js.Value) : bool :=
  match v with Js.Undefined | Js.Null => true | _ => false end.

Definition type_error : Thrown :=
  ThrownError "TypeError" "Cannot read properties of null or undefined".

Definition timed_out (maxWait : Z) : Thrown :=
  ThrownError "Error"
    ("Generation timed out after " +:+ Js.number_to_string maxWait +:+ "ms").

Definition generation_cancelled : Thrown :=
  ThrownError "Error" "Generation was cancelled".

Definition generation_failed : Thrown :=
  ThrownError "Error" "TTS generation failed".

(** [await new Promise(resolve => setTimeout(resolve, ms))]: the loop
    resumes once the timer has fired, which is when the delay it was armed
    with has passed, and what the nap adds to it. *)
Definition sleep (ms : Z) (w : World) : World :=
  let nap := naps w (naps_taken w) in
  let w1 := set_now (now w + timer_delay ms + Z.of_N (oversleep nap)) (count_nap w) in
  let heap := fold_left (fun h s => signal_abort s h) (nap_aborts nap) (signals w1) in
  run_timers (set_signals heap w1).

(** What the loop does with the answer of one status fetch. *)
Inductive Verdict : Type :=
| Done (url : Js.Value)
| Failed (t : Thrown)
| KeepPolling.

Definition judge (st : Js.Value) : Verdict :=
  if nullish st then Failed type_error
  else if Js.strict_eq_string (Js.get st "status") "Completed"
          && Js.truthy (Js.get st "url")
  then Done (Js.get st "url")
  else if Js.strict_eq_string (Js.get st "status") "Failed"
  then Failed generation_failed
  else KeepPolling.

(** The [while (true)] loop of [generateTTS]; [None] when [fuel] iterations
    have not settled it. Synchronous code takes no time: the clock moves
    only while the loop is suspended in a request or a sleep. *)
Fixpoint poll (fuel : nat) (a : Audixa) (generation_id : Js.Value)
    (startTime interval maxWait : Z) (sig : option SignalId) (w : World)
    : option (Outcome Js.Value) * World :=
  match fuel with
  | O => (None, w)
  | S fuel' =>
      if now w - startTime >? maxWait then (Some (Throw (timed_out maxWait)), w)
      else if signal_aborted sig w then (Some (Throw generation_cancelled), w)
      else
        match getStatus a generation_id sig w with
        | (Throw t, w1) => (Some (Throw t), w1)
        | (Return st, w1) =>
            match judge st with
            | Done url => (Some (Return url), w1)
            | Failed t => (Some (Throw t), w1)
            | KeepPolling =>
                poll fuel' a generation_id startTime interval maxWait sig
                  (sleep interval w1)
            end
        end
  end.

(** [generateTTS(payload, options)] *)
Definition generateTTS (fuel : nat) (a : Audixa) (payload : Js.Value)
    (options : option GenerateOptions) (w : World)
    : option (Outcome Js.Value) * World :=
  let interval := default 1000 (options ≫= pollInterval) in
  let maxWait := default 120000 (options ≫= maxWaitTime) in
  let sig := options ≫= gen_signal in
  match startTTS a payload sig w with
  | (Throw t, w1) => (Some (Throw t), w1)
  | (Return started, w1) =>
      if nullish started then (Some (Throw type_error), w1)
      else
        let generation_id := Js.get started "generation_id" in
        let startTime := now w1 in
        poll fuel a generation_id startTime interval maxWait sig w1
  end.

(** ** The specification's vocabulary *)

(** The status table of the error taxonomy, as the specification lists it. *)
Definition taxonomy_table : list (Z * AudixaErrorCode) :=
  [(400, INVALID_PARAMS); (401, INVALID_API_KEY); (402, INSUFFICIENT_CREDITS);
   (403, FORBIDDEN); (404, NOT_FOUND)].

Fixpoint table_image (table : list (Z * AudixaErrorCode)) (st : Z)
    : AudixaErrorCode :=
  match table with
  | [] => UNKNOWN
  | (s, k) :: rest => if st =? s then k else table_image rest st
  end.

(** A completed HTTP exchange: the request was set up, [fetch] resolved
    with [resp] and the body of [resp] was read and parsed into [data]. *)
Definition completes (c : HttpClient) (config : RequestConfig) (w : World)
    (resp : Response) (data : Js.Value) : Prop :=
  ∃ p w0 w1 w2,
    request_prepare c config w = (Return p, w0) ∧
    fetch (fetch_call c config (prep_url p) (prep_signal p)) w0 = (Resolves resp, w1) ∧
    parse_body resp (prep_signal p) (clearTimeout (prep_timeoutId p) w1)
      = (Resolves data, w2).

(** The error [request] raises for an exchange that completed with a
    status that is not 2xx: the one [fromResponse] builds or, when building
    it throws, the network error the [catch] block makes of that
    [TypeError]. *)
Definition http_error (st : Z) (data : Js.Value) : AudixaError :=
  match fromResponse st data with
  | Return e => e
  | Throw _ => networkError "Cannot convert object to primitive value"
  end.

(** An aborted dispatch: the request was set up, and [fetch] or the
    reading of the body rejected with an [AbortError]; [w1] is the world at
    that moment. *)
Definition aborted_dispatch (c : HttpClient) (config : RequestConfig)
    (w w1 : World) : Prop :=
  ∃ p w0 m,
    request_prepare c config w = (Return p, w0) ∧
    (fetch (fetch_call c config (prep_url p) (prep_signal p)) w0
       = (Rejects (RejectError "AbortError" m), w1)
     ∨ ∃ resp w',
         fetch (fetch_call c config (prep_url p) (prep_signal p)) w0
           = (Resolves resp, w') ∧
         parse_body resp (prep_signal p) (clearTimeout (prep_timeoutId p) w')
           = (Rejects (RejectError "AbortError" m), w1)).

Fixpoint slashes (k : nat) : string :=
  match k with
  | O => EmptyString
  | S k' => String slash (slashes k')
  end.

Definition starts_with_slash (s : string) : bool :=
  match s with
  | String c _ => Ascii.eqb c slash
  | EmptyString => false
  end.

Fixpoint ends_with_slash (s : string) : bool :=
  match s with
  | EmptyString => false
  | String c EmptyString => Ascii.eqb c slash
  | String _ rest => ends_with_slash rest
  end.

(** A valid API key in the specification's sense: a non-empty string. *)
Definition valid_api_key (key : Js.Value) : Prop :=
  ∃ s, key = Js.Str s ∧ s ≠ "".

(** A program that builds the client and then uses it. *)
Definition with_client {A} (key : Js.Value) (options : option AudixaOptions)
    (use : Audixa -> World -> Outcome A * World) (w : World)
    : Outcome A * World :=
  match Audixa_new key options with
  | Throw t => (Throw t, w)
  | Return a => use a w
  end.

(** The eight kinds other than [UNAUTHORIZED]. *)
Definition produced_kinds : list AudixaErrorCode :=
  [INVALID_PARAMS; INVALID_API_KEY; INSUFFICIENT_CREDITS; FORBIDDEN;
   NOT_FOUND; NETWORK_ERROR; TIMEOUT; UNKNOWN].

(** The message the specification's wording gives: the first of
    [message], [error] that is present in the body, else the status text. *)
Definition message_if_present (st : Z) (b : Js.Value) : string :=
  match Js.get b "message" with
  | Js.Undefined =>
      match Js.get b "error" with
      | Js.Undefined => status_message st
      | e => Js.to_string e
      end
  | m => Js.to_string m
  end.

(** No timer is pending: every timer has fired or been cleared. *)
Definition timers_idle (w : World) : Prop :=
  Forall (fun tm => active tm = false) (timers w).

(** The time a run of ticks takes. *)
Definition total (ms : list N) : Z :=
  fold_right (fun m acc => Z.of_N m + acc) 0 ms.

(** The caller's signal, when there is one, exists and has not aborted. *)
Definition caller_silent (sig : option SignalId) (w : World) : Prop :=
  match sig with
  | Some s => ∃ us, signals w !! s = Some us ∧ aborted us = false
  | None => True
  end.

(** The parsed body of a response, if reading it is not interrupted. *)
Definition body_of (resp : Response) : Settled Js.Value :=
  if is_json resp then json resp
  else
    match text resp with
    | Resolves s => Resolves (Js.Str s)
    | Rejects r => Rejects r
    end.

(** The network plays an exchange without incident: only time passes, the
    answer [resp] arrives before a timer armed with [limit] milliseconds is
    due, and its body reads as [data]; [elapsed] is the time the whole
    exchange takes. *)
Definition answered_by (ex : Exchange) (limit : Z) (resp : Response)
    (data : Js.Value) (elapsed : Z) : Prop :=
  ∃ ms ms',
    flight ex = List.map Tick ms ∧ total ms < timer_delay limit
    ∧ arrival ex = Resolves resp ∧ reading resp = List.map Tick ms'
    ∧ body_of resp = Resolves data ∧ elapsed = total ms + total ms'.

(** Two worlds that run the same script. *)
Definition same_script (w w' : World) : Prop :=
  network w' = network w ∧ naps w' = naps w ∧ url_parses w' = url_parses w.

(** A status answer that is not terminal: the job has not failed, and it
    is not completed with an audio URL. *)
Definition non_terminal (st : Js.Value) : Prop :=
  nullish st = false
  ∧ Js.get st "status" ≠ Js.Str "Failed"
  ∧ ¬ (Js.get st "status" = Js.Str "Completed" ∧ Js.truthy (Js.get st "url") = true).

(** What the polling loop relies on from one iteration to the next: the
    script is the one it started with, no timer is pending, the caller has
    not aborted, and the submission has been sent. *)
Definition poll_inv (w_init : World) (sig : option SignalId) (first : nat)
    (w : World) : Prop :=
  same_script w_init w ∧ timers_idle w ∧ caller_silent sig w
  ∧ (first <= length (fetches w))%nat.

(** Every status fetch from the [first] on is answered in time, with a
    status that is not terminal, and each round takes some time. *)
Definition never_terminal (w : World) (limit interval : Z) (first : nat) : Prop :=
  ∀ k, (first <= k)%nat →
    ∃ resp st el,
      answered_by (network w k) limit resp st el
      ∧ ok resp = true ∧ non_terminal st ∧ 0 < el + Z.max 0 interval.

(** A thrown value that, if it is an [AudixaError], carries one of the
    eight kinds other than [UNAUTHORIZED]. *)
Definition kind_is_produced (t : Thrown) : Prop :=
  ∀ e, t = ThrownAudixa e → In (code e) produced_kinds.

(** A call to [fetch] that asks for the status of a job. *)
Definition status_call (a : Audixa) (call : FetchCall) : Prop :=
  call_method call = GET
  ∧ href (call_url call) = compose_url (baseUrl (client a)) "/status".

(** ** Sample worlds *)

Definition quiet_nap : Nap := mkNap 0 [].

Definition json_response (st : Z) (v : Js.Value) : Response :=
  mkResponse st (Some "application/json; charset=utf-8") [] (Resolves v)
    (Rejects (RejectError "TypeError" "Body is unusable")).

Definition answers (latency : N) (r : Response) : Exchange :=
  mkExchange [Tick latency] (Resolves r).

Definition world_of (net : nat -> Exchange) : World :=
  mkWorld 1700000000000 [] [] [] 0 net (fun _ => quiet_nap) (fun _ => true).

Definition sample_client : HttpClient := mkClient "https://x/v2/" 30000 "key".
Definition sample_audixa : Audixa := mkAudixa sample_client.

Definition started_body : Js.Value := Js.Obj [("generation_id", Js.Str "gen-1")].
Definition status_body (st : string) (url : Js.Value) : Js.Value :=
  Js.Obj [("status", Js.Str st); ("url", url); ("generation_id", Js.Str "gen-1")].

(** Submission succeeds, then every status fetch says [st]. *)
Definition steady_net (st : Js.Value) (k : nat) : Exchange :=
  match k with
  | O => answers 20 (json_response 200 started_body)
  | S _ => answers 20 (json_response 200 st)
  end.

Definition status_config : RequestConfig :=
  mkConfig GET "/status" None (Some [("generation_id", "gen-1")]) None.

Definition not_found_body : Js.Value :=
  Js.Obj [("message", Js.Str "No such generation")].

Definition not_found_world : World :=
  world_of (fun _ => answers 20 (json_response 404 not_found_body)).

Definition empty_message_body : Js.Value :=
  Js.Obj [("message", Js.Str ""); ("error", Js.Str "bad request")].

(** A proxy answers 404 with a JSON content type and a body that is cut
    short. *)
Definition truncated_response : Response :=
  mkResponse 404 (Some "application/json") []
    (Rejects (RejectError "SyntaxError" "Unexpected end of JSON input"))
    (Resolves "{").

Definition truncated_world : World :=
  world_of (fun _ => answers 20 truncated_response).

(** A 404 whose [message] is an object that owns a [toString]. *)
Definition opaque_message_body : Js.Value :=
  Js.Obj [("message", Js.Obj [("toString", Js.Num 1)])].

Definition opaque_message_world : World :=
  world_of (fun _ => answers 20 (json_response 404 opaque_message_body)).

(** A world in which the caller holds one controller, signal [0]. *)
Definition caller_world (is_aborted_already : bool) (net : nat -> Exchange) : World :=
  mkWorld 1700000000000 [mkSignal is_aborted_already []] [] [] 0 net
    (fun _ => quiet_nap) (fun _ => true).

Definition submit_config : RequestConfig :=
  mkConfig POST "/tts" (Some (Js.Obj [("text", Js.Str "hello")])) None (Some 0%nat).

(** The caller aborts 100 ms into the request. *)
Definition cancelling_net (k : nat) : Exchange :=
  mkExchange [Tick 100; CallerAborts 0] (Resolves (json_response 200 started_body)).

(** The answer arrives after 20 ms; the caller aborts 50 ms into the
    reading of its body. *)
Definition slow_body_response : Response :=
  mkResponse 200 (Some "application/json") [Tick 50; CallerAborts 0]
    (Resolves started_body)
    (Rejects (RejectError "TypeError" "Body is unusable")).

Definition late_cancelling_net (k : nat) : Exchange :=
  answers 20 slow_body_response.

(** The server needs longer than the 30 s the client allows. *)
Definition stalling_net (k : nat) : Exchange :=
  mkExchange [Tick 10000; Tick 25000] (Resolves (json_response 200 started_body)).

Definition prompt_net (k : nat) : Exchange :=
  answers 20 (json_response 200 started_body).

Definition wait_100 (sig : option SignalId) : GenerateOptions :=
  mkGenerateOptions None (Some 100) sig.

Definition generating_world : World :=
  world_of (steady_net (status_body "Generating" Js.Null)).

Definition failing_world : World :=
  world_of (steady_net (status_body "Failed" Js.Null)).

(** The caller aborts during the first sleep of the loop. *)
Definition abort_in_first_nap (k : nat) : Nap :=
  match k with
  | O => mkNap 0 [0%nat]
  | S _ => quiet_nap
  end.

Definition cancelling_world : World :=
  mkWorld 1700000000000 [mkSignal false []] [] [] 0
    (steady_net (status_body "Generating" Js.Null))
    abort_in_first_nap (fun _ => true).

Definition sample_payload : Js.Value :=
  Js.Obj [("text", Js.Str "Hello world, this is a test of text-to-speech.");
          ("voice", Js.Str "en-US-female-1")].

(** A job that is in progress, then completed without a URL, then
    completed with one. *)
Definition finishing_net (k : nat) : Exchange :=
  match k with
  | 0%nat => answers 20 (json_response 200 started_body)
  | 1%nat => answers 20 (json_response 200 (status_body "Generating" Js.Null))
  | 2%nat => answers 20 (json_response 200 (status_body "Completed" Js.Null))
  | _ => answers 20 (json_response 200
                       (status_body "Completed" (Js.Str "https://cdn.audixa.ai/a.mp3")))
  end.

Definition finishing_world : World := world_of finishing_net.

(** ** Further vocabulary *)

(** [fetch] was called and rejected with [r]. *)
Definition fetch_fails (c : HttpClient) (config : RequestConfig) (w : World)
    (r : Rejection) : Prop :=
  ∃ p w0 w1,
    request_prepare c config w = (Return p, w0) ∧
    fetch (fetch_call c config (prep_url p) (prep_signal p)) w0 = (Rejects r, w1).

(** [fetch] resolved with [resp], and reading its body rejected with [r]. *)
Definition body_fails (c : HttpClient) (config : RequestConfig) (w : World)
    (resp : Response) (r : Rejection) : Prop :=
  ∃ p w0 w1 w2,
    request_prepare c config w = (Return p, w0) ∧
    fetch (fetch_call c config (prep_url p) (prep_signal p)) w0 = (Resolves resp, w1) ∧
    parse_body resp (prep_signal p) (clearTimeout (prep_timeoutId p) w1)
      = (Rejects r, w2).

(** The body [request] gives to [fetch]: the configured one when truthy. *)
Definition sent_body (config : RequestConfig) : option Js.Value :=
  match body config with
  | Some b => if Js.truthy b then Some b else None
  | None => None
  end.

(** The connection is refused. *)
Definition refusing_world : World :=
  world_of (fun _ => mkExchange [Tick 3]
                       (Rejects (RejectError "TypeError" "fetch failed"))).

(** The platform rejects with a value that is no [Error]. *)
Definition odd_world : World :=
  world_of (fun _ => mkExchange [] (Rejects (RejectValue (Js.Str "boom")))).

(** A gateway answers 502 with a JSON content type and a body that is not
    JSON. *)
Definition bad_json_response : Response :=
  mkResponse 502 (Some "application/json") []
    (Rejects (RejectError "SyntaxError" "Unexpected token < in JSON"))
    (Resolves "<html>Bad Gateway</html>").

Definition bad_json_world : World :=
  world_of (fun _ => answers 20 bad_json_response).

(** A gateway answers 502 with an HTML page. *)
Definition html_response : Response :=
  mkResponse 502 (Some "text/html") []
    (Rejects (RejectError "SyntaxError" "Unexpected token < in JSON"))
    (Resolves "<html>Bad Gateway</html>").

Definition html_world : World := world_of (fun _ => answers 20 html_response).

Definition voices_body : Js.Value :=
  Js.Obj [("user_id", Js.Str "u-1"); ("model", Js.Str "base");
          ("voices", Js.Arr [Js.Obj [("voice_id", Js.Str "b")];
                             Js.Obj [("voice_id", Js.Str "a")]])].

Definition voices_world : World :=
  world_of (fun _ => answers 20 (json_response 200 voices_body)).

(** A platform on which no URL parses. *)
Definition lost_world : World :=
  mkWorld 1700000000000 [] [] [] 0 prompt_net (fun _ => quiet_nap) (fun _ => false).

(** The submission is accepted, but the answer carries no [generation_id]. *)
Definition anonymous_world : World :=
  world_of (fun k => match k with
                     | O => answers 20 (json_response 200 (Js.Obj []))
                     | S _ => answers 20 (json_response 200
                                            (status_body "Generating" Js.Null))
                     end).

(** The submission is accepted; the status of the job is not found. *)
Definition vanished_world : World :=
  world_of (fun k => match k with
                     | O => answers 20 (json_response 200 started_body)
                     | S _ => answers 20 (json_response 404 not_found_body)
                     end).

(** The submission is accepted; the caller aborts during the first status
    fetch. *)
Definition impatient_world : World :=
  caller_world false
    (fun k => match k with
              | O => answers 20 (json_response 200 started_body)
              | S _ => cancelling_net k
              end).

(** [n] status fetches answered with a status that is not terminal, each
    round (fetch and sleep) within [round_time], then the answer [final];
    [j] is the number of calls made so far and [m] the number of sleeps. *)
Definition rounds_then_final (w : World) (a : Audixa) (interval round_time : Z)
    (final : Js.Value) (n j m : nat) : Prop :=
  (∀ k, (k < n)%nat →
     ∃ resp st el,
       answered_by (network w (j + k)) (timeout (client a)) resp st el
       ∧ ok resp = true ∧ non_terminal st
       ∧ el + timer_delay interval + Z.of_N (oversleep (naps w (m + k)))
         <= round_time)
  ∧ ∃ resp el,
      answered_by (network w (j + n)) (timeout (client a)) resp final el
      ∧ ok resp = true.

(** * Properties *)

(** ** Strings *)

Example status_message_404 : status_message 404 = "Request failed with status 404".
Proof. reflexivity. Qed.

(** Numbers print as JavaScript prints the double they stand for. *)
Example numbers_print_as_doubles :
  Js.number_to_string 404 = "404"
  ∧ Js.number_to_string (-1) = "-1"
  ∧ Js.number_to_string 9007199254740993 = "9007199254740992"
  ∧ Js.number_to_string 18446744073709551616 = "18446744073709552000"
  ∧ Js.number_to_string 1000000000000000000000 = "1e+21"
  ∧ Js.number_to_string 1180591620717411303424 = "1.1805916207174113e+21".
Proof. vm_compute. repeat split. Qed.

Example string_forms :
  Js.has_string_form (Js.Obj [("toString", Js.Num 1)]) = false
  ∧ Js.has_string_form (Js.Arr [Js.Null; Js.Obj [("toString", Js.Null)]]) = false
  ∧ Js.has_string_form (Js.Obj [("valueOf", Js.Num 1)]) = true
  ∧ Js.to_string (Js.Arr [Js.Null; Js.Num 1; Js.Arr [Js.Str "a"; Js.Obj []]])
    = ",1,a,[object Object]".
Proof. vm_compute. repeat split. Qed.

Lemma prefix_refl (s : string) : Js.prefix s s = true.
Proof.
  induction s as [|c s IH]; simpl; [reflexivity|].
  rewrite Ascii.eqb_refl. exact IH.
Qed.

Lemma includes_suffix (a b : string) : Js.includes (a +:+ b) b = true.
Proof.
  induction a as [|c a IH]; simpl.
  - destruct b; simpl; [reflexivity|].
    rewrite Ascii.eqb_refl, prefix_refl. reflexivity.
  - rewrite IH. apply orb_true_r.
Qed.

Lemma append_nil_l (s : string) : "" +:+ s = s.
Proof. reflexivity. Qed.

Lemma append_cons (c : ascii) (a b : string) :
  String c a +:+ b = String c (a +:+ b).
Proof. reflexivity. Qed.

Lemma strip_trailing_shape (b : string) :
  (∃ k, b = strip_trailing_slashes b +:+ slashes k)
  ∧ ends_with_slash (strip_trailing_slashes b) = false.
Proof.
  induction b as [|c rest [[k Hk] Hend]]; simpl.
  - split; [exists 0%nat; reflexivity | reflexivity].
  - destruct (Ascii.eqb c slash) eqn:Hc; simpl.
    + destruct (String.eqb (strip_trailing_slashes rest) "") eqn:He.
      * apply String.eqb_eq in He. apply Ascii.eqb_eq in Hc. subst c.
        split; [|reflexivity]. exists (S k).
        rewrite He in Hk. rewrite append_nil_l in *. simpl. congruence.
      * split.
        -- exists k. rewrite append_cons. congruence.
        -- simpl. destruct (strip_trailing_slashes rest); [discriminate He | exact Hend].
    + split.
      * exists k. rewrite append_cons. congruence.
      * simpl. destruct (strip_trailing_slashes rest); [exact Hc | exact Hend].
Qed.

Lemma strip_leading_shape (p : string) :
  (∃ m, p = slashes m +:+ strip_leading_slashes p)
  ∧ starts_with_slash (strip_leading_slashes p) = false.
Proof.
  induction p as [|c rest [[m Hm] Hstart]]; simpl.
  - split; [exists 0%nat; reflexivity | reflexivity].
  - destruct (Ascii.eqb c slash) eqn:Hc.
    + apply Ascii.eqb_eq in Hc. subst c. split; [|exact Hstart].
      exists (S m). simpl. rewrite append_cons. congruence.
    + split; [exists 0%nat; reflexivity | simpl; exact Hc].
Qed.

(** ** The error taxonomy *)

Lemma getErrorCodeFromStatus_table (st : Z) :
  getErrorCodeFromStatus st = table_image taxonomy_table st.
Proof. reflexivity. Qed.

Lemma table_image_other (st : Z) :
  ¬ In st [400; 401; 402; 403; 404] → table_image taxonomy_table st = UNKNOWN.
Proof.
  intros Hnot. simpl.
  repeat match goal with
  | |- context [st =? ?n] =>
      destruct (Z.eqb_spec st n) as [->|_]; [exfalso; apply Hnot; simpl; tauto|]
  end.
  reflexivity.
Qed.

(** ** The log of fetch calls *)

Lemma run_timers_fetches (w : World) : fetches (run_timers w) = fetches w.
Proof. reflexivity. Qed.

Lemma happen_fetches (e : Event) (w : World) : fetches (happen e w) = fetches w.
Proof. destruct e; reflexivity. Qed.

Lemma clearTimeout_fetches (id : TimerId) (w : World) :
  fetches (clearTimeout id w) = fetches w.
Proof. unfold clearTimeout. destruct (timers w !! id); reflexivity. Qed.

Lemma in_flight_fetches (watch : SignalId) (events : list Event) (w : World) :
  fetches (in_flight watch events w).2 = fetches w.
Proof.
  revert w. induction events as [|e rest IH]; intros w; simpl.
  - destruct (is_aborted watch _); reflexivity.
  - destruct (is_aborted watch _); [reflexivity|].
    rewrite IH, happen_fetches. reflexivity.
Qed.

Lemma read_body_fetches {A} watch events (result : Settled A) (w : World) :
  fetches (read_body watch events result w).2 = fetches w.
Proof.
  unfold read_body.
  pose proof (in_flight_fetches watch events w) as H.
  destruct (in_flight watch events w) as [[] w1]; exact H.
Qed.

Lemma parse_body_fetches resp watch (w : World) :
  fetches (parse_body resp watch w).2 = fetches w.
Proof.
  unfold parse_body. destruct (is_json resp).
  - apply read_body_fetches.
  - pose proof (read_body_fetches watch (reading resp) (text resp) w) as H.
    destruct (read_body watch (reading resp) (text resp) w) as [[s|r] w']; exact H.
Qed.

Lemma fetch_fetches (call : FetchCall) (w : World) :
  fetches (fetch call w).2 = fetches w ++ [call].
Proof.
  unfold fetch.
  pose proof (in_flight_fetches (call_signal call)
                (flight (network w (length (fetches w)))) (log_fetch call w)) as H.
  destruct (in_flight _ _ _) as [[] w1]; exact H.
Qed.

Lemma addEventListener_fetches id h (w : World) :
  fetches (addEventListener id h w) = fetches w.
Proof. unfold addEventListener. destruct (signals w !! id); reflexivity. Qed.

Lemma request_prepare_fetches c config (w : World) :
  fetches (request_prepare c config w).2 = fetches w.
Proof.
  unfold request_prepare. destruct (url_parses w _); [|reflexivity].
  simpl. destruct (signal config) as [s|]; [|reflexivity].
  unfold combineSignals. simpl. rewrite !addEventListener_fetches. reflexivity.
Qed.

Lemma request_prepare_url c config (w : World) p w0 :
  request_prepare c config w = (Return p, w0) →
  prep_url p = mkURL (compose_url (baseUrl c) (path config))
                     (default [] (params config)).
Proof.
  unfold request_prepare. destruct (url_parses w _); [|discriminate].
  simpl. destruct (signal config); simpl; intros [= <- _]; destruct (params config); reflexivity.
Qed.

Lemma request_catch_fetches config id error (w : World) :
  fetches (request_catch config id error w).2 = fetches w.
Proof.
  unfold request_catch. destruct error as [e|name msg|v]; simpl.
  - apply clearTimeout_fetches.
  - destruct (String.eqb name "AbortError");
      [destruct (signal_aborted _ _)|]; apply clearTimeout_fetches.
  - apply clearTimeout_fetches.
Qed.

Lemma request_try_fetches c config url id sg (w : World) :
  fetches (request_try c config url id sg w).2
  = fetches w ++ [fetch_call c config url sg].
Proof.
  unfold request_try.
  pose proof (fetch_fetches (fetch_call c config url sg) w) as Hf.
  destruct (fetch _ w) as [[resp|r] w1]; simpl in Hf; [|exact Hf].
  pose proof (parse_body_fetches resp sg (clearTimeout id w1)) as Hp.
  rewrite clearTimeout_fetches, Hf in Hp.
  destruct (parse_body _ _ _) as [[data|r] w3]; simpl in Hp; [|exact Hp].
  destruct (negb (ok resp)); [|exact Hp].
  destruct (fromResponse _ _); exact Hp.
Qed.

(** Once the URL has been accepted, [request] calls [fetch] exactly once,
    whatever happens next. *)
Lemma request_fetches c config (w : World) p w0 :
  request_prepare c config w = (Return p, w0) →
  fetches (request c config w).2
  = fetches w ++ [fetch_call c config (prep_url p) (prep_signal p)].
Proof.
  intros Hp. unfold request. rewrite Hp.
  pose proof (request_prepare_fetches c config w) as H0. rewrite Hp in H0. simpl in H0.
  pose proof (request_try_fetches c config (prep_url p) (prep_timeoutId p)
                (prep_signal p) w0) as Ht.
  destruct (request_try _ _ _ _ _ w0) as [[v|error] w1]; simpl in Ht.
  - simpl. now rewrite Ht, H0.
  - pose proof (request_catch_fetches config (prep_timeoutId p) error w1) as Hc.
    destruct (request_catch _ _ _ _) as [t w2]. simpl in *. now rewrite Hc, Ht, H0.
Qed.

Lemma AudixaError_new_text (s : string) c st resp :
  AudixaError_new (Js.Str s) c st resp = Return (AudixaError_text s c st resp).
Proof. reflexivity. Qed.

(** [fromResponse] throws nothing but the [TypeError] of the conversion. *)
Lemma fromResponse_throws (st : Z) (data : Js.Value) t :
  fromResponse st data = Throw t → t = cannot_convert.
Proof.
  unfold fromResponse, AudixaError_new.
  destruct (Js.has_string_form _); [discriminate | now intros [= <-]].
Qed.

Lemma fromResponse_returns (st : Z) (data : Js.Value) :
  Js.has_string_form (fromResponse_message st data) = true →
  fromResponse st data
  = Return (mkAudixaError (Js.to_string (fromResponse_message st data))
              (getErrorCodeFromStatus st) (Some st) (Some data)).
Proof. intros H. unfold fromResponse, AudixaError_new. now rewrite H. Qed.

Lemma http_error_converted (st : Z) (data : Js.Value) :
  Js.has_string_form (fromResponse_message st data) = true →
  http_error st data
  = mkAudixaError (Js.to_string (fromResponse_message st data))
      (getErrorCodeFromStatus st) (Some st) (Some data).
Proof. intros H. unfold http_error. now rewrite fromResponse_returns. Qed.

Lemma http_error_unconverted (st : Z) (data : Js.Value) :
  Js.has_string_form (fromResponse_message st data) = false →
  http_error st data = networkError "Cannot convert object to primitive value".
Proof.
  intros H. unfold http_error, fromResponse, AudixaError_new. now rewrite H.
Qed.

(** A completed exchange is answered by its body, or by the error made of
    it. *)
Lemma request_completes c config (w : World) resp data :
  completes c config w resp data →
  (request c config w).1 =
    if ok resp then Return data
    else Throw (ThrownAudixa (http_error (resp_status resp) data)).
Proof.
  intros (p & w0 & w1 & w2 & Hp & Hf & Hb).
  unfold request. rewrite Hp. unfold request_try. rewrite Hf, Hb.
  destruct (ok resp); [reflexivity|]. simpl negb. cbv iota.
  unfold http_error.
  destruct (fromResponse (resp_status resp) data) as [e|t] eqn:Hr; [reflexivity|].
  apply fromResponse_throws in Hr. subst t. reflexivity.
Qed.

(** ** Status mapping and error messages *)

Lemma fromResponse_message_cases (st : Z) (b : Js.Value) :
  fromResponse_message st b =
    if Js.truthy (Js.get b "message") then Js.get b "message"
    else if Js.truthy (Js.get b "error") then Js.get b "error"
    else Js.Str (status_message st).
Proof. reflexivity. Qed.

Lemma truthy_nonempty (s : string) : s ≠ "" → Js.truthy (Js.Str s) = true.
Proof. intros Hs. simpl. destruct (String.eqb_spec s ""); [contradiction | reflexivity]. Qed.

(** A field that is a string, or is passed over, never stands in the way
    of the conversion. *)
Lemma string_fields_convert (st : Z) (b : Js.Value) :
  (∀ k, In k ["message"; "error"] →
        Js.is_string (Js.get b k) = true ∨ Js.truthy (Js.get b k) = false) →
  Js.has_string_form (fromResponse_message st b) = true.
Proof.
  intros H. rewrite fromResponse_message_cases.
  destruct (H "message") as [Hm|Hm]; [simpl; tauto | |].
  - destruct (Js.truthy (Js.get b "message")).
    + destruct (Js.get b "message"); try discriminate Hm. reflexivity.
    + destruct (H "error") as [He|He]; [simpl; tauto | |].
      * destruct (Js.truthy (Js.get b "error")); [|reflexivity].
        destruct (Js.get b "error"); try discriminate He. reflexivity.
      * now rewrite He.
  - rewrite Hm. destruct (H "error") as [He|He]; [simpl; tauto | |].
    + destruct (Js.truthy (Js.get b "error")); [|reflexivity].
      destruct (Js.get b "error"); try discriminate He. reflexivity.
    + now rewrite He.
Qed.




(** C4, as stated, fails: a [message] field that is present but empty is
    passed over, and the message comes from [error]. *)
Lemma empty_message_falls_through :
  Js.get empty_message_body "message" = Js.Str ""
  ∧ ∃ e, fromResponse 400 empty_message_body = Return e
         ∧ message e = "bad request"
         ∧ message e ≠ message_if_present 400 empty_message_body.
Proof.
  split; [reflexivity|]. eexists. split; [reflexivity|].
  split; [reflexivity | vm_compute; discriminate].
Qed.

(** C4, amended: for every non-2xx response with parsed body [b], the
    message of the raised error is [b.message] when that field is a string
    that is not empty; when [b.message] is falsy (absent, [null], empty),
    it is [b.error] if that is a string that is not empty; when both are
    falsy, it is a text that contains the status code in decimal. *)
Theorem error_message_preference c config (w : World) resp b :
  completes c config w resp b →
  ok resp = false →
  (∀ s, Js.get b "message" = Js.Str s → s ≠ "" →
     ∃ e, (request c config w).1 = Throw (ThrownAudixa e) ∧ message e = s)
  ∧ (∀ s, Js.truthy (Js.get b "message") = false →
          Js.get b "error" = Js.Str s → s ≠ "" →
     ∃ e, (request c config w).1 = Throw (ThrownAudixa e) ∧ message e = s)
  ∧ (Js.truthy (Js.get b "message") = false →
     Js.truthy (Js.get b "error") = false →
     ∃ e, (request c config w).1 = Throw (ThrownAudixa e)
          ∧ message e = status_message (resp_status resp)
          ∧ Js.includes (message e) (Js.number_to_string (resp_status resp)) = true).
Proof.
  intros Hc Hok.
  assert (Hreq : ∀ s, fromResponse_message (resp_status resp) b = Js.Str s →
            ∃ e, (request c config w).1 = Throw (ThrownAudixa e) ∧ message e = s).
  { intros s Hs. exists (http_error (resp_status resp) b).
    rewrite (request_completes _ _ _ _ _ Hc), Hok. split; [reflexivity|].
    rewrite http_error_converted; now rewrite Hs. }
  split; [|split].
  - intros s Hm Hs. apply Hreq.
    now rewrite fromResponse_message_cases, Hm, (truthy_nonempty s Hs).
  - intros s Hm He Hs. apply Hreq.
    now rewrite fromResponse_message_cases, Hm, He, (truthy_nonempty s Hs).
  - intros Hm He.
    destruct (Hreq (status_message (resp_status resp))) as (e & Hr & Hmsg).
    { now rewrite fromResponse_message_cases, Hm, He. }
    exists e. split; [exact Hr|]. split; [exact Hmsg|].
    rewrite Hmsg. apply includes_suffix.
Qed.

Lemma error_message_preference_witness :
  ∃ e, (request sample_client status_config not_found_world).1
         = Throw (ThrownAudixa e)
       ∧ message e = "No such generation".
Proof.
  refine (proj1 (error_message_preference sample_client status_config
                   not_found_world (json_response 404 not_found_body)
                   not_found_body _ _) "No such generation" _ _).
  - do 4 eexists. split; [|split]; vm_compute; reflexivity.
  - reflexivity.
  - reflexivity.
  - discriminate.
Defined.

(** ** URL composition *)

Lemma request_prepare_accepts c config (w : World) :
  url_parses w (compose_url (baseUrl c) (path config)) = true →
  ∃ p w0, request_prepare c config w = (Return p, w0).
Proof.
  intros Hu. unfold request_prepare. rewrite Hu. simpl.
  destruct (signal config); simpl; eauto.
Qed.

(** C5: the URL handed to [fetch] is the base URL without its trailing
    slashes, one slash, and the path without its leading slashes, with the
    query parameters appended; [https://x/v2/] with [/tts] and
    [https://x/v2] with [tts] both give [https://x/v2/tts]. *)
Theorem dispatched_url_is_slash_normalised c config (w : World) :
  url_parses w (compose_url (baseUrl c) (path config)) = true →
  let b' := strip_trailing_slashes (baseUrl c) in
  let p' := strip_leading_slashes (path config) in
  (∃ call, fetches (request c config w).2 = fetches w ++ [call]
           ∧ call_url call = mkURL (b' +:+ "/" +:+ p') (default [] (params config)))
  ∧ (∃ k, baseUrl c = b' +:+ slashes k) ∧ ends_with_slash b' = false
  ∧ (∃ m, path config = slashes m +:+ p') ∧ starts_with_slash p' = false
  ∧ compose_url "https://x/v2/" "/tts" = "https://x/v2/tts"
  ∧ compose_url "https://x/v2" "tts" = "https://x/v2/tts".
Proof.
  intros Hu b' p'.
  destruct (request_prepare_accepts c config w Hu) as (p & w0 & Hp).
  destruct (strip_trailing_shape (baseUrl c)) as [Hk Hend].
  destruct (strip_leading_shape (path config)) as [Hm Hstart].
  repeat split; try assumption.
  exists (fetch_call c config (prep_url p) (prep_signal p)). split.
  - now apply request_fetches with (w0 := w0).
  - simpl. now rewrite (request_prepare_url _ _ _ _ _ Hp).
Qed.

Lemma dispatched_url_is_slash_normalised_witness :
  ∃ call, fetches (request sample_client status_config not_found_world).2 = [call]
          ∧ call_url call = mkURL "https://x/v2/status" [("generation_id", "gen-1")].
Proof.
  destruct (dispatched_url_is_slash_normalised sample_client status_config
              not_found_world) as [(call & Hlog & Hurl) _].
  - reflexivity.
  - exists call. split; [exact Hlog | exact Hurl].
Defined.

(** ** Construction *)

(** C9: building a client with an API key that is empty or not a string
    raises [INVALID_PARAMS] at once, and nothing that would use the client
    runs, so no network call is made; with any non-empty string it
    succeeds. *)
Theorem api_key_checked_at_construction (key : Js.Value) options :
  (¬ valid_api_key key →
     ∃ e, Audixa_new key options = Throw (ThrownAudixa e)
          ∧ code e = INVALID_PARAMS
          ∧ ∀ A (use : Audixa → World → Outcome A * World) (w : World),
              with_client key options use w = (Throw (ThrownAudixa e), w))
  ∧ (∀ s, key = Js.Str s → s ≠ "" →
     ∃ a, Audixa_new key options = Return a ∧ apiKey (client a) = s).
Proof.
  split.
  - intros Hbad.
    assert (Hguard : negb (Js.truthy key) || negb (Js.is_string key) = true).
    { destruct key as [| |b|n|s|l|l]; simpl; try reflexivity;
        try apply orb_true_r.
      destruct (String.eqb_spec s ""); [reflexivity|].
      exfalso. apply Hbad. exists s. split; [reflexivity | assumption]. }
    eexists. repeat split.
    + unfold Audixa_new, HttpClient_new. rewrite Hguard. reflexivity.
    + reflexivity.
    + intros A use w. unfold with_client, Audixa_new, HttpClient_new.
      rewrite Hguard. reflexivity.
  - intros s -> Hs. unfold Audixa_new, HttpClient_new. simpl.
    destruct (String.eqb_spec s ""); [contradiction|]. simpl.
    eexists. split; reflexivity.
Qed.

Lemma api_key_checked_at_construction_witness :
  (∃ e, Audixa_new (Js.Str "") None = Throw (ThrownAudixa e)
        ∧ code e = INVALID_PARAMS)
  ∧ (∃ e, Audixa_new (Js.Num 42) None = Throw (ThrownAudixa e)
          ∧ code e = INVALID_PARAMS)
  ∧ (∃ a, Audixa_new (Js.Str "your-api-key") None = Return a
          ∧ apiKey (client a) = "your-api-key").
Proof.
  split; [|split].
  - destruct (proj1 (api_key_checked_at_construction (Js.Str "") None))
      as (e & He & Hc & _).
    + intros (s & [= <-] & Hs). now apply Hs.
    + eauto.
  - destruct (proj1 (api_key_checked_at_construction (Js.Num 42) None))
      as (e & He & Hc & _).
    + intros (s & [=] & _).
    + eauto.
  - apply (proj2 (api_key_checked_at_construction (Js.Str "your-api-key") None)).
    + reflexivity.
    + discriminate.
Defined.

(** ** Abort signals *)

Lemma fold_left_invariant {A B} (P : A → Prop) (f : A → B → A) (l : list B) (a : A) :
  (∀ x b, P x → P (f x b)) → P a → P (fold_left f l a).
Proof. intros Hstep. revert a. induction l as [|b l IH]; simpl; auto. Qed.

Lemma abort_S (fuel : nat) (id : SignalId) (heap : list AbortSignal) :
  abort (S fuel) id heap =
    match heap !! id with
    | None => heap
    | Some s =>
        if aborted s then heap
        else
          fold_left (fun h handler => match handler with AbortOf t => abort fuel t h end)
            (listeners s) (<[id := mkSignal true (listeners s)]> heap)
    end.
Proof. reflexivity. Qed.

Lemma abort_step (fuel : nat) (id : SignalId) (heap : list AbortSignal) s :
  heap !! id = Some s → aborted s = false →
  abort (S fuel) id heap =
    fold_left (fun h handler => match handler with AbortOf t => abort fuel t h end)
      (listeners s) (<[id := mkSignal true (listeners s)]> heap).
Proof. intros Hs Ha. rewrite abort_S, Hs, Ha. reflexivity. Qed.

Lemma abort_length (fuel : nat) (id : SignalId) (heap : list AbortSignal) :
  length (abort fuel id heap) = length heap.
Proof.
  revert id heap. induction fuel as [|fuel IH]; intros id heap; simpl; [reflexivity|].
  destruct (heap !! id) as [s|]; [|reflexivity].
  destruct (aborted s); [reflexivity|].
  apply (fold_left_invariant (fun h => length h = length heap)).
  - intros h [t] Hh. now rewrite IH.
  - apply length_insert.
Qed.

Lemma is_aborted_insert_true (j id : SignalId) (heap : list AbortSignal) ls :
  (id < length heap)%nat →
  is_aborted j heap = true ∨ j = id →
  is_aborted j (<[id := mkSignal true ls]> heap) = true.
Proof.
  intros Hlt Hj. unfold is_aborted.
  destruct (decide (id = j)) as [->|Hne].
  - now rewrite list_lookup_insert_eq.
  - rewrite list_lookup_insert_ne by assumption.
    destruct Hj as [Hj | ->]; [exact Hj | contradiction].
Qed.

(** An aborted signal stays aborted. *)
Lemma abort_mono (fuel : nat) (id j : SignalId) (heap : list AbortSignal) :
  is_aborted j heap = true → is_aborted j (abort fuel id heap) = true.
Proof.
  revert id heap. induction fuel as [|fuel IH]; intros id heap Hj; simpl; [exact Hj|].
  destruct (heap !! id) as [s|] eqn:Hs; [|exact Hj].
  destruct (aborted s); [exact Hj|].
  apply (fold_left_invariant (fun h => is_aborted j h = true)).
  - intros h [t] Hh. now apply IH.
  - apply is_aborted_insert_true; [|now left].
    apply lookup_lt_is_Some. eauto.
Qed.

(** [abort] aborts its target. *)
Lemma abort_hits (fuel : nat) (id : SignalId) (heap : list AbortSignal) :
  (id < length heap)%nat → is_aborted id (abort (S fuel) id heap) = true.
Proof.
  intros Hlt. rewrite abort_S.
  destruct (lookup_lt_is_Some_2 heap id Hlt) as [s Hs]. rewrite Hs.
  destruct (aborted s) eqn:Ha.
  - unfold is_aborted. now rewrite Hs.
  - apply (fold_left_invariant (fun h => is_aborted id h = true)).
    + intros h [t] Hh. now apply abort_mono.
    + apply is_aborted_insert_true; [exact Hlt | now right].
Qed.

Lemma signal_abort_length (id : SignalId) (heap : list AbortSignal) :
  length (signal_abort id heap) = length heap.
Proof. apply abort_length. Qed.

Lemma signal_abort_mono (id j : SignalId) (heap : list AbortSignal) :
  is_aborted j heap = true → is_aborted j (signal_abort id heap) = true.
Proof. apply abort_mono. Qed.

Lemma signal_abort_hits (id : SignalId) (heap : list AbortSignal) :
  (id < length heap)%nat → is_aborted id (signal_abort id heap) = true.
Proof. apply abort_hits. Qed.

(** Aborting a signal aborts every controller listening to it, provided it
    had not aborted before. *)
Lemma signal_abort_reaches (id t : SignalId) (heap : list AbortSignal) s :
  heap !! id = Some s → aborted s = false →
  In (AbortOf t) (listeners s) → (t < length heap)%nat →
  is_aborted t (signal_abort id heap) = true.
Proof.
  intros Hs Ha Hin Hlt. unfold signal_abort.
  rewrite (abort_step _ _ _ _ Hs Ha).
  assert (Hfuel : ∃ f, length heap = S f).
  { destruct heap; [simpl in Hlt; lia | eauto]. }
  destruct Hfuel as [f Hf].
  assert (Hlen : length (<[id := mkSignal true (listeners s)]> heap) = length heap)
    by apply length_insert.
  revert Hin Hlen. generalize (<[id := mkSignal true (listeners s)]> heap).
  induction (listeners s) as [|[t'] ls IH]; intros h Hin Hlen; [destruct Hin|].
  cbn [fold_left]. destruct Hin as [[= ->] | Hin].
  - apply (fold_left_invariant (fun h => is_aborted t h = true)).
    + intros h' [t''] Hh. now apply abort_mono.
    + rewrite Hf. apply abort_hits. now rewrite Hlen.
  - apply IH; [exact Hin|]. now rewrite abort_length.
Qed.

(** A signal that was aborted before [addEventListener] does not notify a
    listener added afterwards: aborting it again changes nothing. *)
Lemma signal_abort_again (id : SignalId) (heap : list AbortSignal) :
  is_aborted id heap = true → signal_abort id heap = heap.
Proof.
  unfold is_aborted, signal_abort. rewrite abort_S.
  destruct (heap !! id) as [s|]; [|reflexivity].
  now intros ->.
Qed.

(** ** Timers and awaiting *)

Lemma world_eta (w : World) :
  mkWorld (now w) (signals w) (timers w) (fetches w) (naps_taken w)
    (network w) (naps w) (url_parses w) = w.
Proof. destruct w; reflexivity. Qed.

Lemma set_now_same (w : World) : set_now (now w) w = w.
Proof. apply world_eta. Qed.

Lemma filter_none {A} (f : A → bool) (l : list A) :
  (∀ x, In x l → f x = false) → List.filter f l = [].
Proof.
  induction l as [|x l IH]; intros H; simpl; [reflexivity|].
  rewrite (H x) by now left. apply IH. intros y Hy. apply H. now right.
Qed.

Lemma map_fixed {A} (f : A → A) (l : list A) :
  (∀ x, In x l → f x = x) → List.map f l = l.
Proof.
  induction l as [|x l IH]; intros H; simpl; [reflexivity|].
  rewrite (H x) by now left. f_equal. apply IH. intros y Hy. apply H. now right.
Qed.

(** When no timer is due the event loop has nothing to run. *)
Lemma run_timers_none_due (w : World) :
  (∀ tm, In tm (timers w) → is_due (now w) tm = false) → run_timers w = w.
Proof.
  intros H. unfold run_timers.
  rewrite (filter_none _ _ H). simpl.
  rewrite map_fixed.
  - destruct w; reflexivity.
  - intros tm Htm. now rewrite (H tm Htm).
Qed.

Lemma idle_not_due (t : Z) (tm : Timer) : active tm = false → is_due t tm = false.
Proof. unfold is_due. now intros ->. Qed.

Lemma idle_In (l : list Timer) (tm : Timer) :
  Forall (fun tm => active tm = false) l → In tm l → active tm = false.
Proof. rewrite Forall_forall. intros H Hin. now apply H, list_elem_of_In. Qed.

(** Closes a goal about a timer known to sit among idle ones: either it is
    not due, or it cannot be active. *)
Ltac idle_timer :=
  match goal with
  | Hall : Forall (fun tm => active tm = false) ?l, Hin : In ?tm ?l |- is_due _ ?tm = false =>
      apply idle_not_due, (idle_In l tm Hall Hin)
  | Hall : timers_idle ?w, Hin : In ?tm (timers ?w) |- is_due _ ?tm = false =>
      apply idle_not_due, (idle_In (timers w) tm Hall Hin)
  | Hall : Forall (fun tm => active tm = false) ?l, Hin : In ?tm ?l,
    Hact : active ?tm = true |- _ =>
      rewrite (idle_In l tm Hall Hin) in Hact; discriminate Hact
  | Hall : timers_idle ?w, Hin : In ?tm (timers ?w),
    Hact : active ?tm = true |- _ =>
      rewrite (idle_In (timers w) tm Hall Hin) in Hact; discriminate Hact
  end.

Lemma in_flight_nil watch (w : World) :
  in_flight watch [] w =
    if is_aborted watch (signals (run_timers w)) then (true, run_timers w)
    else (false, run_timers w).
Proof. reflexivity. Qed.

Lemma in_flight_cons watch e rest (w : World) :
  in_flight watch (e :: rest) w =
    if is_aborted watch (signals (run_timers w)) then (true, run_timers w)
    else in_flight watch rest (happen e (run_timers w)).
Proof. reflexivity. Qed.

Lemma in_flight_aborted watch events (w : World) :
  is_aborted watch (signals (run_timers w)) = true →
  in_flight watch events w = (true, run_timers w).
Proof.
  intros H. destruct events; [rewrite in_flight_nil | rewrite in_flight_cons];
    now rewrite H.
Qed.

(** Time passing before any timer is due changes nothing but the clock. *)
Lemma in_flight_ticks watch (ms : list N) rest (w : World) :
  is_aborted watch (signals w) = false →
  (∀ tm, In tm (timers w) → active tm = true → now w + total ms < due tm) →
  in_flight watch (List.map Tick ms ++ rest) w
  = in_flight watch rest (set_now (now w + total ms) w).
Proof.
  revert w. induction ms as [|m ms IH]; intros w Hw Hquiet.
  - simpl. now rewrite Z.add_0_r, set_now_same.
  - assert (Hm : 0 <= Z.of_N m) by lia.
    assert (Hms : 0 <= total ms).
    { clear. induction ms as [|x ms IH]; simpl; lia. }
    change (List.map Tick (m :: ms) ++ rest)
      with (Tick m :: (List.map Tick ms ++ rest)).
    rewrite in_flight_cons, run_timers_none_due.
    + rewrite Hw. simpl happen. rewrite IH.
      * simpl. f_equal. unfold set_now. simpl. f_equal. lia.
      * exact Hw.
      * intros tm Htm Hact. simpl in *. specialize (Hquiet tm Htm Hact). lia.
    + intros tm Htm. unfold is_due.
      destruct (active tm) eqn:Hact; [|reflexivity].
      specialize (Hquiet tm Htm Hact). simpl in Hquiet. simpl.
      apply Z.leb_gt. lia.
Qed.

Lemma timer_delay_pos (delay : Z) : 1 <= timer_delay delay.
Proof.
  unfold timer_delay. destruct (Z.leb_spec 1 delay); simpl; [|lia].
  destruct (delay <=? TIMEOUT_MAX); lia.
Qed.

Lemma timer_delay_in_range (delay : Z) :
  1 <= delay <= TIMEOUT_MAX → timer_delay delay = delay.
Proof.
  intros [H1 H2]. unfold timer_delay.
  destruct (Z.leb_spec 1 delay); [|lia].
  destruct (Z.leb_spec delay TIMEOUT_MAX); [reflexivity | lia].
Qed.

Lemma total_nonneg (ms : list N) : 0 <= total ms.
Proof. induction ms as [|x ms IH]; simpl; lia. Qed.

(** A run of ticks that reaches the deadline of the one pending timer makes
    that timer fire, which stops the awaited operation as soon as the fired
    controller reaches the watched signal. *)
Lemma in_flight_deadline watch (n : SignalId) (old : list Timer) (deadline : Z)
    (ms : list N) rest (w : World) :
  timers w = old ++ [mkTimer deadline (AbortOf n) true] →
  Forall (fun tm => active tm = false) old →
  is_aborted watch (signals w) = false →
  is_aborted watch (signal_abort n (signals w)) = true →
  deadline <= now w + total ms →
  ∃ w', in_flight watch (List.map Tick ms ++ rest) w = (true, w')
        ∧ signals w' = signal_abort n (signals w).
Proof.
  intros Htimers Hold. revert w Htimers.
  induction ms as [|m ms IH]; intros w Htimers Hw Hfire Hdead.
  - (* the deadline has come *)
    simpl in Hdead. rewrite Z.add_0_r in Hdead.
    assert (Hsig : signals (run_timers w) = signal_abort n (signals w)).
    { unfold run_timers. simpl. rewrite Htimers, List.filter_app.
      rewrite filter_none.
      - simpl. unfold is_due. simpl.
        destruct (Z.leb_spec deadline (now w)); [reflexivity | lia].
      - intros tm Htm. idle_timer. }
    exists (run_timers w). split; [|exact Hsig].
    apply in_flight_aborted. now rewrite Hsig.
  - destruct (Z.leb_spec deadline (now w)) as [Hnow|Hnow].
    + assert (Hsig : signals (run_timers w) = signal_abort n (signals w)).
      { unfold run_timers. simpl. rewrite Htimers, List.filter_app.
        rewrite filter_none.
        - simpl. unfold is_due. simpl.
          destruct (Z.leb_spec deadline (now w)); [reflexivity | lia].
        - intros tm Htm. idle_timer. }
      exists (run_timers w). split; [|exact Hsig].
      apply in_flight_aborted. now rewrite Hsig.
    + change (List.map Tick (m :: ms) ++ rest)
        with (Tick m :: (List.map Tick ms ++ rest)).
      rewrite in_flight_cons, run_timers_none_due.
      * rewrite Hw. simpl happen.
        apply (IH (set_now (now w + Z.of_N m) w)); simpl; try assumption.
        simpl in Hdead. lia.
      * intros tm Htm. rewrite Htimers in Htm. apply in_app_or in Htm.
        destruct Htm as [Htm|[<-|[]]].
        -- idle_timer.
        -- unfold is_due. simpl. apply Z.leb_gt. lia.
Qed.

(** ** What [request] prepares *)

Lemma combineSignals_heap (w : World) (s t : SignalId) us :
  signals w !! s = Some us →
  signals w !! t = Some (mkSignal false []) → s ≠ t →
  ∃ w', combineSignals s t w = (length (signals w), w')
    ∧ now w' = now w ∧ timers w' = timers w ∧ fetches w' = fetches w
    ∧ network w' = network w
    ∧ signals w' =
        <[t := mkSignal false [AbortOf (length (signals w))]]>
          (<[s := mkSignal (aborted us) (listeners us ++ [AbortOf (length (signals w))])]>
             (signals w ++ [mkSignal false []])).
Proof.
  intros Hs Ht Hne. unfold combineSignals, AbortController_new.
  unfold addEventListener at 2. simpl.
  rewrite (lookup_app_l_Some _ _ _ _ Hs). 
  unfold addEventListener. simpl.
  rewrite list_lookup_insert_ne by assumption.
  rewrite (lookup_app_l_Some _ _ _ _ Ht). simpl.
  eexists. split; [reflexivity|]. repeat split.
Qed.

(** The heap [combineSignals] leaves behind, seen from outside. *)
Lemma combined_heap_facts (heap : list AbortSignal) (s : SignalId) us :
  heap !! s = Some us → aborted us = false →
  let n := length heap in
  let c := S n in
  let E := <[n := mkSignal false [AbortOf c]]>
             (<[s := mkSignal (aborted us) (listeners us ++ [AbortOf c])]>
                ((heap ++ [mkSignal false []]) ++ [mkSignal false []])) in
  is_aborted c E = false
  ∧ is_aborted c (signal_abort n E) = true
  ∧ is_aborted s E = false
  ∧ is_aborted s (signal_abort n E) = false
  ∧ is_aborted c (signal_abort s E) = true
  ∧ is_aborted s (signal_abort s E) = true.
Proof.
  intros Hs Ha n c E.
  assert (Hsn : (s < n)%nat) by (apply lookup_lt_is_Some; eauto).
  assert (Hlen : length E = S (S n)).
  { unfold E. rewrite !length_insert, !length_app. simpl. lia. }
  assert (Hbase_c : ((heap ++ [mkSignal false []]) ++ [mkSignal false []]) !! c
                    = Some (mkSignal false [])).
  { apply list_lookup_middle. rewrite length_app. simpl. lia. }
  assert (HEc : E !! c = Some (mkSignal false [])).
  { unfold E. rewrite !list_lookup_insert_ne by lia. exact Hbase_c. }
  assert (HEn : E !! n = Some (mkSignal false [AbortOf c])).
  { unfold E. apply list_lookup_insert_eq. rewrite length_insert, !length_app. simpl. lia. }
  assert (HEs : E !! s = Some (mkSignal (aborted us) (listeners us ++ [AbortOf c]))).
  { unfold E. rewrite list_lookup_insert_ne by lia.
    apply list_lookup_insert_eq. rewrite !length_app. simpl. lia. }
  split; [unfold is_aborted; now rewrite HEc|].
  split.
  { apply (signal_abort_reaches n c E _ HEn); [reflexivity | now left | lia]. }
  split; [unfold is_aborted; now rewrite HEs|].
  split.
  { unfold signal_abort. rewrite (abort_step _ _ _ _ HEn eq_refl).
    cbn [listeners fold_left]. rewrite Hlen.
    erewrite abort_step; [| rewrite list_lookup_insert_ne by lia; exact HEc | reflexivity].
    cbn [listeners fold_left]. unfold is_aborted.
    rewrite !list_lookup_insert_ne by lia. now rewrite HEs. }
  split.
  { apply (signal_abort_reaches s c E _ HEs); [exact Ha | | lia].
    simpl. apply in_or_app. right. now left. }
  apply signal_abort_hits. lia.
Qed.


Lemma request_prepare_facts c config (w : World) :
  url_parses w (compose_url (baseUrl c) (path config)) = true →
  caller_silent (signal config) w →
  ∃ p w0, request_prepare c config w = (Return p, w0)
    ∧ now w0 = now w ∧ fetches w0 = fetches w ∧ network w0 = network w
    ∧ prep_timeoutId p = length (timers w)
    ∧ timers w0 = timers w ++ [mkTimer (now w + timer_delay (timeout c))
                                  (AbortOf (prep_controller p)) true]
    ∧ is_aborted (prep_signal p) (signals w0) = false
    ∧ is_aborted (prep_signal p) (signal_abort (prep_controller p) (signals w0)) = true
    ∧ match signal config with
      | None => True
      | Some s =>
          is_aborted s (signals w0) = false
          ∧ is_aborted s (signal_abort (prep_controller p) (signals w0)) = false
          ∧ is_aborted (prep_signal p) (signal_abort s (signals w0)) = true
          ∧ is_aborted s (signal_abort s (signals w0)) = true
      end.
Proof.
  intros Hu Hsilent. unfold request_prepare. rewrite Hu.
  destruct (signal config) as [s|].
  - destruct Hsilent as (us & Hs & Ha).
    set (w2 := (setTimeout (AbortOf (length (signals w))) (timeout c)
                  (AbortController_new w).2).2).
    assert (Hs2 : signals w2 !! s = Some us).
    { simpl. now apply lookup_app_l_Some. }
    assert (Hn2 : signals w2 !! length (signals w) = Some (mkSignal false [])).
    { simpl. now apply list_lookup_middle. }
    assert (Hne : s ≠ length (signals w)).
    { apply lookup_lt_Some in Hs. lia. }
    destruct (combineSignals_heap w2 s _ us Hs2 Hn2 Hne)
      as (w' & Hcomb & Hnow & Htim & Hfet & Hnet & Hsig).
    cbv beta iota delta [AbortController_new setTimeout].
    change (combineSignals s _ _)
      with (combineSignals s (length (signals w)) w2).
    rewrite Hcomb. do 2 eexists. split; [reflexivity|].
    cbn [prep_timeoutId prep_controller prep_signal].
    rewrite Hnow, Htim, Hfet, Hnet, Hsig.
    assert (Hlen2 : length (signals w2) = S (length (signals w))).
    { simpl. rewrite length_app. simpl. lia. }
    rewrite Hlen2.
    destruct (combined_heap_facts (signals w) s us Hs Ha)
      as (F1 & F2 & F3 & F4 & F5 & F6).
    repeat split; assumption.
  - cbv beta iota delta [AbortController_new setTimeout].
    do 2 eexists. split; [reflexivity|].
    cbn [prep_timeoutId prep_controller prep_signal].
    assert (Hn : (signals w ++ [mkSignal false []]) !! length (signals w)
                 = Some (mkSignal false [])) by now apply list_lookup_middle.
    repeat split.
    + unfold is_aborted. simpl. now rewrite Hn.
    + simpl. apply signal_abort_hits. rewrite length_app. simpl. lia.
Qed.

(** ** Aborted requests *)

Lemma clearTimeout_signals (id : TimerId) (w : World) :
  signals (clearTimeout id w) = signals w.
Proof. unfold clearTimeout. destruct (timers w !! id); reflexivity. Qed.

(** The caller aborts while the request is in flight and before any timer
    is due: [fetch] rejects with an [AbortError]. *)
Lemma fetch_caller_aborts (call : FetchCall) (w : World) (ms : list N)
    (s : SignalId) rest :
  flight (network w (length (fetches w)))
    = List.map Tick ms ++ CallerAborts s :: rest →
  is_aborted (call_signal call) (signals w) = false →
  (∀ tm, In tm (timers w) → active tm = true → now w + total ms < due tm) →
  is_aborted (call_signal call) (signal_abort s (signals w)) = true →
  ∃ w', fetch call w = (Rejects abort_error, w')
        ∧ signals w' = signal_abort s (signals w).
Proof.
  intros Hflight Hlive Hquiet Hreach. unfold fetch. rewrite Hflight.
  rewrite in_flight_ticks by assumption.
  set (w1 := set_now _ _).
  assert (Hnone : ∀ w2, timers w2 = timers w → now w2 = now w + total ms →
                        run_timers w2 = w2).
  { intros w2 Ht Hn. apply run_timers_none_due. intros tm Htm.
    rewrite Ht in Htm. unfold is_due.
    destruct (active tm) eqn:Hact; [|reflexivity].
    specialize (Hquiet tm Htm Hact). simpl. apply Z.leb_gt. lia. }
  rewrite in_flight_cons, (Hnone w1) by reflexivity.
  change (signals w1) with (signals w). rewrite Hlive.
  rewrite in_flight_aborted.
  - rewrite Hnone by reflexivity. eexists. split; reflexivity.
  - rewrite Hnone by reflexivity. exact Hreach.
Qed.

(** The one pending timer comes due while the request is in flight and
    nothing else has happened: [fetch] rejects with an [AbortError]. *)
Lemma fetch_deadline (call : FetchCall) (w : World) (n : SignalId)
    (old : list Timer) (deadline : Z) (ms : list N) rest :
  flight (network w (length (fetches w))) = List.map Tick ms ++ rest →
  timers w = old ++ [mkTimer deadline (AbortOf n) true] →
  Forall (fun tm => active tm = false) old →
  is_aborted (call_signal call) (signals w) = false →
  is_aborted (call_signal call) (signal_abort n (signals w)) = true →
  deadline <= now w + total ms →
  ∃ w', fetch call w = (Rejects abort_error, w')
        ∧ signals w' = signal_abort n (signals w).
Proof.
  intros Hflight Htimers Hold Hlive Hfire Hdead. unfold fetch. rewrite Hflight.
  destruct (in_flight_deadline (call_signal call) n old deadline ms rest
              (log_fetch call w) Htimers Hold Hlive Hfire Hdead)
    as (w' & Hin & Hsig).
  rewrite Hin. exists w'. split; [reflexivity | exact Hsig].
Qed.

(** What the [catch] block makes of an aborted [fetch]. *)
Lemma request_fetch_aborted c config (w : World) p w0 w1 :
  request_prepare c config w = (Return p, w0) →
  fetch (fetch_call c config (prep_url p) (prep_signal p)) w0
    = (Rejects abort_error, w1) →
  (request c config w).1 =
    Throw (ThrownAudixa (if signal_aborted (signal config) w1
                         then cancelled_error else timeout_error)).
Proof.
  intros Hp Hf. unfold request. rewrite Hp. unfold request_try. rewrite Hf.
  unfold request_catch. simpl.
  assert (Hs : signal_aborted (signal config) (clearTimeout (prep_timeoutId p) w1)
               = signal_aborted (signal config) w1).
  { unfold signal_aborted. now rewrite clearTimeout_signals. }
  rewrite Hs. destruct (signal_aborted (signal config) w1); reflexivity.
Qed.

(** ** The combined signal *)

(** After construction the combined signal follows both of its sources:
    it aborts when the timeout controller aborts and when the caller's
    signal does. *)
Lemma combined_signal_follows_later_aborts c config (w : World) s :
  url_parses w (compose_url (baseUrl c) (path config)) = true →
  signal config = Some s →
  caller_silent (Some s) w →
  ∃ p w0, request_prepare c config w = (Return p, w0)
    ∧ is_aborted (prep_signal p) (signals w0) = false
    ∧ is_aborted (prep_signal p) (signal_abort (prep_controller p) (signals w0)) = true
    ∧ is_aborted (prep_signal p) (signal_abort s (signals w0)) = true.
Proof.
  intros Hu Hs Hsilent. rewrite <- Hs in Hsilent.
  destruct (request_prepare_facts c config w Hu Hsilent)
    as (p & w0 & Hp & _ & _ & _ & _ & _ & Hlive & Hfire & Hcaller).
  rewrite Hs in Hcaller. destruct Hcaller as (_ & _ & Hreach & _).
  exists p, w0. auto.
Qed.

(** A caller's signal that has aborted before [combineSignals] runs leaves
    the combined signal untouched, then and whenever the caller aborts
    again. *)
Lemma combineSignals_ignores_earlier_abort (w : World) (user timeoutSignal : SignalId) :
  is_aborted user (signals w) = true →
  let '(combined, w') := combineSignals user timeoutSignal w in
  is_aborted combined (signals w') = false
  ∧ is_aborted user (signals w') = true
  ∧ signal_abort user (signals w') = signals w'.
Proof.
  intros Hab. unfold combineSignals, AbortController_new.
  set (n := length (signals w)).
  set (w1 := set_signals (signals w ++ [mkSignal false []]) w).
  assert (Hfresh : ∀ w2, length (signals w2) = S n →
            signals w2 !! n = Some (mkSignal false []) →
            ∀ id h, id ≠ n →
              signals (addEventListener id h w2) !! n = Some (mkSignal false [])
              ∧ length (signals (addEventListener id h w2)) = S n).
  { intros w2 Hlen Hn id h Hne. unfold addEventListener.
    destruct (signals w2 !! id); simpl; [|auto].
    rewrite list_lookup_insert_ne by assumption. now rewrite length_insert. }
  assert (Hkeep : ∀ w2 id h, is_aborted user (signals w2) = true →
            is_aborted user (signals (addEventListener id h w2)) = true).
  { intros w2 id h H2. unfold addEventListener.
    destruct (signals w2 !! id) as [sg|] eqn:Hid; simpl; [|exact H2].
    unfold is_aborted in *. destruct (decide (id = user)) as [->|Hne].
    - rewrite Hid in H2. rewrite list_lookup_insert_eq; [exact H2|].
      apply lookup_lt_is_Some. eauto.
    - now rewrite list_lookup_insert_ne. }
  assert (Huser : is_aborted user (signals w1) = true).
  { unfold is_aborted in *. simpl. destruct (signals w !! user) eqn:Hu; [|discriminate].
    now rewrite (lookup_app_l_Some _ _ _ _ Hu). }
  assert (Hne : user ≠ n).
  { intros ->. unfold is_aborted in Hab. subst n.
    rewrite lookup_ge_None_2 in Hab by lia. discriminate. }
  assert (Hn1 : signals w1 !! n = Some (mkSignal false [])).
  { simpl. now apply list_lookup_middle. }
  assert (Hlen1 : length (signals w1) = S n).
  { simpl. rewrite length_app. simpl. lia. }
  destruct (Hfresh w1 Hlen1 Hn1 user (AbortOf n) Hne) as [Hn2 Hlen2].
  pose proof (Hkeep w1 user (AbortOf n) Huser) as Huser2.
  set (w2 := addEventListener user (AbortOf n) w1) in *.
  assert (Hfinal : is_aborted user (signals (addEventListener timeoutSignal (AbortOf n) w2)) = true)
    by now apply Hkeep.
  split; [|split; [exact Hfinal | now apply signal_abort_again]].
  destruct (decide (timeoutSignal = n)) as [->|Hnt].
  - unfold addEventListener. rewrite Hn2. simpl. unfold is_aborted.
    rewrite list_lookup_insert_eq by lia. reflexivity.
  - destruct (Hfresh w2 Hlen2 Hn2 timeoutSignal (AbortOf n) Hnt) as [Hn3 _].
    unfold is_aborted. now rewrite Hn3.
Qed.

(** C6 fails on a signal that is already aborted when the request starts:
    the signal given to [fetch] is not aborted, the request goes out and
    its answer is returned as if nothing had been cancelled. *)
Theorem aborted_signal_does_not_stop_request :
  let w := caller_world true prompt_net in
  signal_aborted (signal submit_config) w = true
  ∧ (∃ p w0, request_prepare sample_client submit_config w = (Return p, w0)
             ∧ is_aborted (prep_signal p) (signals w0) = false)
  ∧ (request sample_client submit_config w).1 = Return started_body
  ∧ length (fetches (request sample_client submit_config w).2) = 1%nat.
Proof.
  split; [reflexivity|]. split; [|split; vm_compute; reflexivity].
  do 2 eexists. split; vm_compute; reflexivity.
Qed.

(** ** Requests that are answered *)

Lemma caller_silent_alt (sig : option SignalId) (w : World) :
  caller_silent sig w ↔
  match sig with
  | Some s => (s < length (signals w))%nat ∧ is_aborted s (signals w) = false
  | None => True
  end.
Proof.
  destruct sig as [s|]; simpl; [|tauto]. unfold is_aborted. split.
  - intros (us & Hs & Ha). rewrite Hs. split; [|exact Ha].
    apply lookup_lt_is_Some. eauto.
  - intros [Hlt Ha]. destruct (lookup_lt_is_Some_2 _ _ Hlt) as [us Hs].
    rewrite Hs in Ha. eauto.
Qed.

Lemma is_aborted_app (j : SignalId) (heap extra : list AbortSignal) :
  (j < length heap)%nat → is_aborted j (heap ++ extra) = is_aborted j heap.
Proof. intros Hlt. unfold is_aborted. now rewrite lookup_app_l. Qed.

Lemma addEventListener_is_aborted id h (w : World) (j : SignalId) :
  is_aborted j (signals (addEventListener id h w)) = is_aborted j (signals w).
Proof.
  unfold addEventListener. destruct (signals w !! id) as [sg|] eqn:Hid; [|reflexivity].
  simpl. unfold is_aborted. destruct (decide (id = j)) as [->|Hne].
  - rewrite list_lookup_insert_eq, Hid; [reflexivity|].
    apply lookup_lt_is_Some. eauto.
  - now rewrite list_lookup_insert_ne.
Qed.

Lemma addEventListener_length id h (w : World) :
  length (signals (addEventListener id h w)) = length (signals w).
Proof.
  unfold addEventListener. destruct (signals w !! id); [|reflexivity].
  simpl. apply length_insert.
Qed.

Lemma addEventListener_frame id h (w : World) :
  now (addEventListener id h w) = now w
  ∧ timers (addEventListener id h w) = timers w
  ∧ naps_taken (addEventListener id h w) = naps_taken w
  ∧ same_script w (addEventListener id h w).
Proof.
  unfold addEventListener, same_script. destruct (signals w !! id); simpl; repeat split.
Qed.

Lemma same_script_refl (w : World) : same_script w w.
Proof. repeat split. Qed.

Lemma same_script_trans (w1 w2 w3 : World) :
  same_script w1 w2 → same_script w2 w3 → same_script w1 w3.
Proof.
  unfold same_script. intros (A1 & A2 & A3) (B1 & B2 & B3).
  rewrite B1, B2, B3. auto.
Qed.

(** Setting a request up leaves the script alone and does not disturb the
    caller's signal. *)
Lemma request_prepare_frame c config (w : World) p w0 :
  request_prepare c config w = (Return p, w0) →
  same_script w w0 ∧ naps_taken w0 = naps_taken w
  ∧ (∀ sig, caller_silent sig w → caller_silent sig w0).
Proof.
  unfold request_prepare. destruct (url_parses w _); [|discriminate].
  cbv beta iota delta [AbortController_new setTimeout].
  destruct (signal config) as [s|].
  - unfold combineSignals, AbortController_new.
    set (w2 := set_signals _ (set_timers _ _)).
    set (h := AbortOf _).
    intros [= <- <-].
    split; [|split].
    + eapply same_script_trans; [|apply addEventListener_frame].
      eapply same_script_trans; [|apply addEventListener_frame].
      subst w2. repeat split.
    + etransitivity; [apply addEventListener_frame|].
      etransitivity; [apply addEventListener_frame|]. reflexivity.
    + intros sig. rewrite !caller_silent_alt. destruct sig as [j|]; [|auto].
      intros [Hlt Ha].
      rewrite !addEventListener_is_aborted, !addEventListener_length.
      subst w2. simpl. rewrite !length_app. simpl. split; [lia|].
      rewrite !is_aborted_app; [exact Ha | exact Hlt | rewrite length_app; lia].
  - intros [= <- <-]. split; [|split].
    + repeat split.
    + reflexivity.
    + intros sig. rewrite !caller_silent_alt. destruct sig as [j|]; [|auto].
      intros [Hlt Ha]. simpl. rewrite length_app. simpl. split; [lia|].
      now rewrite is_aborted_app.
Qed.

Lemma parse_body_read resp watch (w : World) :
  parse_body resp watch w = read_body watch (reading resp) (body_of resp) w.
Proof.
  unfold parse_body, body_of, read_body. destruct (is_json resp); [reflexivity|].
  destruct (in_flight watch (reading resp) w) as [[] w1]; [reflexivity|].
  destruct (text resp); reflexivity.
Qed.

Lemma clearTimeout_last (old : list Timer) (tm : Timer) (w : World) :
  timers w = old ++ [tm] →
  timers (clearTimeout (length old) w) = old ++ [mkTimer (due tm) (callback tm) false].
Proof.
  intros Ht. unfold clearTimeout. rewrite Ht, list_lookup_middle by reflexivity.
  simpl. rewrite insert_app_r_alt by lia.
  now rewrite Nat.sub_diag.
Qed.

Lemma clearTimeout_frame id (w : World) :
  now (clearTimeout id w) = now w
  ∧ naps_taken (clearTimeout id w) = naps_taken w
  ∧ same_script w (clearTimeout id w).
Proof. unfold clearTimeout, same_script. destruct (timers w !! id); simpl; repeat split. Qed.

(** A request whose exchange the network plays without incident, with a
    2xx answer, hands back what the server said and leaves no timer
    pending. *)
Lemma request_answered c config (w : World) resp data elapsed :
  url_parses w (compose_url (baseUrl c) (path config)) = true →
  timers_idle w →
  caller_silent (signal config) w →
  answered_by (network w (length (fetches w))) (timeout c) resp data elapsed →
  ok resp = true →
  ∃ w', request c config w = (Return data, w')
    ∧ now w' = now w + elapsed ∧ 0 <= elapsed
    ∧ timers_idle w'
    ∧ caller_silent (signal config) w'
    ∧ (∃ sg, fetches w' = fetches w ++
               [fetch_call c config
                  (mkURL (compose_url (baseUrl c) (path config))
                     (default [] (params config))) sg])
    ∧ naps_taken w' = naps_taken w
    ∧ same_script w w'.
Proof.
  intros Hu Hidle Hsilent (ms & ms' & Hflight & Hshort & Harr & Hread & Hbody & ->) Hok.
  destruct (request_prepare_facts c config w Hu Hsilent)
    as (p & w0 & Hp & Hnow & Hfet & Hnet & Htid & Htim & Hlive & _ & _).
  destruct (request_prepare_frame c config w p w0 Hp) as (Hscript & Hnaps & Hkeep).
  set (call := fetch_call c config (prep_url p) (prep_signal p)).
  set (w1 := set_now (now w0 + total ms) (log_fetch call w0)).
  assert (Hfetch : fetch call w0 = (Resolves resp, w1)).
  { unfold fetch. rewrite Hnet, Hfet, Hflight.
    rewrite <- (app_nil_r (List.map Tick ms)).
    rewrite in_flight_ticks.
    - rewrite in_flight_nil, run_timers_none_due.
      + change (signals (set_now _ _)) with (signals w0).
        change (call_signal call) with (prep_signal p).
        now rewrite Hlive, Harr.
      + intros tm Htm. simpl in Htm. rewrite Htim in Htm.
        apply in_app_or in Htm. destruct Htm as [Htm|[<-|[]]].
        * idle_timer.
        * unfold is_due. simpl. apply Z.leb_gt. lia.
    - exact Hlive.
    - intros tm Htm Hact. simpl in Htm. rewrite Htim in Htm.
      apply in_app_or in Htm. destruct Htm as [Htm|[<-|[]]].
      + idle_timer.
      + simpl. lia. }
  set (w2 := clearTimeout (prep_timeoutId p) w1).
  assert (Htim2 : timers w2 = timers w ++
            [mkTimer (now w + timer_delay (timeout c)) (AbortOf (prep_controller p)) false]).
  { subst w2. rewrite Htid.
    apply (clearTimeout_last (timers w)
             (mkTimer (now w + timer_delay (timeout c)) (AbortOf (prep_controller p)) true)
             w1).
    exact Htim. }
  assert (Hidle2 : Forall (fun tm => active tm = false) (timers w2)).
  { rewrite Htim2. apply Forall_app. split; [exact Hidle|]. now constructor. }
  assert (Hsig2 : signals w2 = signals w0).
  { subst w2. etransitivity; [apply clearTimeout_signals | reflexivity]. }
  destruct (clearTimeout_frame (prep_timeoutId p) w1) as (Hnow2 & Hnaps2 & Hscript2).
  fold w2 in Hnow2, Hnaps2, Hscript2.
  set (w3 := set_now (now w2 + total ms') w2).
  assert (Hparse : parse_body resp (prep_signal p) w2 = (Resolves data, w3)).
  { rewrite parse_body_read. unfold read_body. rewrite Hread.
    rewrite <- (app_nil_r (List.map Tick ms')).
    rewrite in_flight_ticks.
    - rewrite in_flight_nil, run_timers_none_due.
      + change (signals (set_now _ _)) with (signals w2).
        now rewrite Hsig2, Hlive, Hbody.
      + intros tm Htm. idle_timer.
    - now rewrite Hsig2.
    - intros tm Htm Hact. idle_timer. }
  exists w3. split.
  - unfold request. rewrite Hp. unfold request_try. fold call. rewrite Hfetch.
    fold w2. rewrite Hparse, Hok. reflexivity.
  - pose proof (total_nonneg ms). pose proof (total_nonneg ms').
    split; [simpl; rewrite Hnow2; simpl; lia|]. split; [lia|].
    split; [exact Hidle2|].
    split.
    { apply caller_silent_alt. specialize (Hkeep _ Hsilent).
      apply caller_silent_alt in Hkeep.
      change (signals w3) with (signals w2). now rewrite Hsig2. }
    split.
    { exists (prep_signal p). change (fetches w3) with (fetches w2). subst w2.
      rewrite clearTimeout_fetches. simpl. rewrite Hfet.
      now rewrite <- (request_prepare_url _ _ _ _ _ Hp). }
    split; [simpl; rewrite Hnaps2; simpl; exact Hnaps|].
    apply (same_script_trans w w0 w3); [exact Hscript|].
    apply (same_script_trans w0 w2 w3); [|repeat split].
    apply (same_script_trans w0 w1 w2); [repeat split | exact Hscript2].
Qed.

(** A request in flight while only time passes, for less than any pending
    timer needs: [fetch] settles as the network decides. *)
Lemma fetch_in_time (call : FetchCall) (w : World) (ms : list N) :
  flight (network w (length (fetches w))) = List.map Tick ms →
  is_aborted (call_signal call) (signals w) = false →
  (∀ tm, In tm (timers w) → active tm = true → now w + total ms < due tm) →
  fetch call w = (arrival (network w (length (fetches w))),
                  set_now (now w + total ms) (log_fetch call w)).
Proof.
  intros Hflight Hlive Hquiet. unfold fetch. rewrite Hflight.
  rewrite <- (app_nil_r (List.map Tick ms)).
  rewrite in_flight_ticks by assumption.
  rewrite in_flight_nil, run_timers_none_due.
  - change (signals (set_now _ _)) with (signals w). now rewrite Hlive.
  - intros tm Htm. simpl in Htm. unfold is_due.
    destruct (active tm) eqn:Hact; [|reflexivity].
    specialize (Hquiet tm Htm Hact). simpl. apply Z.leb_gt. lia.
Qed.

(** Reading a body while only time passes and no timer is pending. *)
Lemma parse_body_in_time resp watch (w : World) (ms : list N) :
  reading resp = List.map Tick ms →
  is_aborted watch (signals w) = false →
  timers_idle w →
  parse_body resp watch w = (body_of resp, set_now (now w + total ms) w).
Proof.
  intros Hread Hlive Hidle. rewrite parse_body_read. unfold read_body. rewrite Hread.
  rewrite <- (app_nil_r (List.map Tick ms)).
  rewrite in_flight_ticks.
  - rewrite in_flight_nil, run_timers_none_due.
    + change (signals (set_now _ _)) with (signals w). now rewrite Hlive.
    + intros tm Htm. apply idle_not_due, (idle_In (timers w) tm Hidle Htm).
  - exact Hlive.
  - intros tm Htm Hact. rewrite (idle_In (timers w) tm Hidle Htm) in Hact.
    discriminate Hact.
Qed.

(** ** Aborted dispatches *)

(** The caller aborts while an operation is awaited and before any timer
    is due: the operation stops there. *)
Lemma in_flight_caller_aborts watch (w : World) (ms : list N) (s : SignalId) rest :
  is_aborted watch (signals w) = false →
  (∀ tm, In tm (timers w) → active tm = true → now w + total ms < due tm) →
  is_aborted watch (signal_abort s (signals w)) = true →
  ∃ w', in_flight watch (List.map Tick ms ++ CallerAborts s :: rest) w = (true, w')
        ∧ signals w' = signal_abort s (signals w).
Proof.
  intros Hlive Hquiet Hreach.
  rewrite in_flight_ticks by assumption.
  set (w1 := set_now _ _).
  assert (Hnone : ∀ w2, timers w2 = timers w → now w2 = now w + total ms →
                        run_timers w2 = w2).
  { intros w2 Ht Hn. apply run_timers_none_due. intros tm Htm.
    rewrite Ht in Htm. unfold is_due.
    destruct (active tm) eqn:Hact; [|reflexivity].
    specialize (Hquiet tm Htm Hact). simpl. apply Z.leb_gt. lia. }
  rewrite in_flight_cons, (Hnone w1) by reflexivity.
  change (signals w1) with (signals w). rewrite Hlive.
  rewrite in_flight_aborted.
  - rewrite Hnone by reflexivity. eexists. split; reflexivity.
  - rewrite Hnone by reflexivity. exact Hreach.
Qed.

(** What the [catch] block makes of an [AbortError], wherever it comes
    from: the kind follows [signal?.aborted] as it is at that moment. *)
Lemma request_aborted c config (w w1 : World) :
  aborted_dispatch c config w w1 →
  (request c config w).1 =
    Throw (ThrownAudixa (if signal_aborted (signal config) w1
                         then cancelled_error else timeout_error)).
Proof.
  assert (Hs : ∀ id, signal_aborted (signal config) (clearTimeout id w1)
                     = signal_aborted (signal config) w1).
  { intros id. unfold signal_aborted. now rewrite clearTimeout_signals. }
  intros (p & w0 & m & Hp & [Hf | (resp & w' & Hf & Hb)]);
    unfold request; rewrite Hp; unfold request_try; rewrite Hf; [|rewrite Hb];
    unfold request_catch; simpl; rewrite Hs;
    destruct (signal_aborted (signal config) w1); reflexivity.
Qed.

(** The answer arrives in time and the caller aborts while its body is
    read: the reading rejects with an [AbortError], and the caller's signal
    is aborted by then. *)
Lemma reading_caller_aborts c config (w : World) (s : SignalId)
    (ms ms' : list N) rest resp :
  url_parses w (compose_url (baseUrl c) (path config)) = true →
  timers_idle w →
  signal config = Some s →
  caller_silent (Some s) w →
  flight (network w (length (fetches w))) = List.map Tick ms →
  total ms < timer_delay (timeout c) →
  arrival (network w (length (fetches w))) = Resolves resp →
  reading resp = List.map Tick ms' ++ CallerAborts s :: rest →
  ∃ w1, aborted_dispatch c config w w1 ∧ signal_aborted (Some s) w1 = true.
Proof.
  intros Hu Hidle Hs Hsilent Hflight Hshort Harr Hread. rewrite <- Hs in Hsilent.
  destruct (request_prepare_facts c config w Hu Hsilent)
    as (p & w0 & Hp & Hnow & Hfet & Hnet & Htid & Htim & Hlive & Hfire & Hcaller).
  rewrite Hs in Hcaller. destruct Hcaller as (_ & _ & Hreach & Hself).
  set (call := fetch_call c config (prep_url p) (prep_signal p)).
  set (w1 := set_now (now w0 + total ms) (log_fetch call w0)).
  assert (Hfetch : fetch call w0 = (Resolves resp, w1)).
  { rewrite (fetch_in_time call w0 ms).
    - now rewrite Hnet, Hfet, Harr.
    - now rewrite Hnet, Hfet.
    - exact Hlive.
    - intros tm Htm Hact. rewrite Htim in Htm. apply in_app_or in Htm.
      destruct Htm as [Htm|[<-|[]]]; [idle_timer | simpl; lia]. }
  set (w2 := clearTimeout (prep_timeoutId p) w1).
  assert (Hidle2 : timers_idle w2).
  { unfold timers_idle, w2. rewrite Htid.
    rewrite (clearTimeout_last (timers w)
               (mkTimer (now w + timer_delay (timeout c))
                  (AbortOf (prep_controller p)) true) w1 Htim).
    apply Forall_app. split; [exact Hidle | now constructor]. }
  assert (Hsig2 : signals w2 = signals w0).
  { unfold w2. now rewrite clearTimeout_signals. }
  destruct (in_flight_caller_aborts (prep_signal p) w2 ms' s rest)
    as (w3 & Hstop & Hsig3).
  { now rewrite Hsig2. }
  { intros tm Htm Hact. idle_timer. }
  { now rewrite Hsig2. }
  exists w3. split.
  - exists p, w0, "This operation was aborted". split; [exact Hp|].
    right. exists resp, w1. split; [exact Hfetch|].
    fold w2. rewrite parse_body_read. unfold read_body. rewrite Hread, Hstop.
    reflexivity.
  - unfold signal_aborted. now rewrite Hsig3, Hsig2.
Qed.

(** C3: for every aborted dispatch the kind of the error follows the
    caller's signal: when that signal has fired, dispatch raises kind
    [UNKNOWN] with the message "Request was cancelled", never [TIMEOUT];
    when it has not, it raises kind [TIMEOUT]. The caller's signal has
    fired when the caller aborts while [fetch] is pending or while the body
    is read, in either case before the timer of the request is due; it has
    not when that timer comes due while [fetch] is still pending and the
    caller is still. *)
Theorem abort_kind_follows_caller_signal c config (w : World)
    (ms : list N) (rest : list Event) :
  (∀ w1, aborted_dispatch c config w w1 →
     (request c config w).1 =
       Throw (ThrownAudixa (if signal_aborted (signal config) w1
                            then cancelled_error else timeout_error)))
  ∧ (url_parses w (compose_url (baseUrl c) (path config)) = true →
     timers_idle w →
     caller_silent (signal config) w →
     (∀ s, signal config = Some s →
           flight (network w (length (fetches w)))
             = List.map Tick ms ++ CallerAborts s :: rest →
           total ms < timer_delay (timeout c) →
           (request c config w).1 = Throw (ThrownAudixa cancelled_error))
     ∧ (∀ s resp ms',
           signal config = Some s →
           flight (network w (length (fetches w))) = List.map Tick ms →
           total ms < timer_delay (timeout c) →
           arrival (network w (length (fetches w))) = Resolves resp →
           reading resp = List.map Tick ms' ++ CallerAborts s :: rest →
           (request c config w).1 = Throw (ThrownAudixa cancelled_error))
     ∧ (flight (network w (length (fetches w))) = List.map Tick ms ++ rest →
        timer_delay (timeout c) < total ms →
        (request c config w).1 = Throw (ThrownAudixa timeout_error)))
  ∧ code cancelled_error = UNKNOWN
  ∧ message cancelled_error = "Request was cancelled"
  ∧ code timeout_error = TIMEOUT.
Proof.
  split; [intros w1; apply request_aborted|].
  split; [|repeat split].
  intros Hu Hidle Hsilent.
  destruct (request_prepare_facts c config w Hu Hsilent)
    as (p & w0 & Hp & Hnow & Hfet & Hnet & Htid & Htim & Hlive & Hfire & Hcaller).
  split; [|split].
  - intros s Hs Hflight Hshort. rewrite Hs in Hcaller.
    destruct Hcaller as (_ & _ & Hreach & Hself).
    destruct (fetch_caller_aborts
                (fetch_call c config (prep_url p) (prep_signal p)) w0 ms s rest)
      as (w1 & Hf & Hsig); try assumption.
    + now rewrite Hnet, Hfet.
    + intros tm Htm Hact. rewrite Htim in Htm. apply in_app_or in Htm.
      destruct Htm as [Htm|[<-|[]]].
      * idle_timer.
      * simpl. lia.
    + rewrite (request_fetch_aborted c config w p w0 w1 Hp Hf), Hs.
      unfold signal_aborted. now rewrite Hsig, Hself.
  - intros s resp ms' Hs Hflight Hshort Harr Hread.
    rewrite Hs in Hsilent.
    destruct (reading_caller_aborts c config w s ms ms' rest resp
                Hu Hidle Hs Hsilent Hflight Hshort Harr Hread) as (w1 & Hab & Hfired).
    rewrite (request_aborted c config w w1 Hab), Hs, Hfired. reflexivity.
  - intros Hflight Hlong.
    destruct (fetch_deadline
                (fetch_call c config (prep_url p) (prep_signal p)) w0
                (prep_controller p) (timers w) (now w + timer_delay (timeout c)) ms rest)
      as (w1 & Hf & Hsig); try assumption.
    + now rewrite Hnet, Hfet.
    + lia.
    + rewrite (request_fetch_aborted c config w p w0 w1 Hp Hf).
      unfold signal_aborted. destruct (signal config) as [s|]; [|reflexivity].
      destruct Hcaller as (_ & Hkeep & _). now rewrite Hsig, Hkeep.
Qed.

Lemma abort_kind_follows_caller_signal_witness :
  (request sample_client submit_config (caller_world false cancelling_net)).1
    = Throw (ThrownAudixa cancelled_error)
  ∧ (request sample_client submit_config (caller_world false late_cancelling_net)).1
    = Throw (ThrownAudixa cancelled_error)
  ∧ (request sample_client submit_config (caller_world false stalling_net)).1
    = Throw (ThrownAudixa timeout_error).
Proof.
  assert (Hquiet : ∀ net, caller_silent (signal submit_config) (caller_world false net)).
  { intros net. exists (mkSignal false []). split; reflexivity. }
  split; [|split].
  - refine (proj1 (proj1 (proj2 (abort_kind_follows_caller_signal sample_client
                     submit_config (caller_world false cancelling_net) [100%N] []))
                     _ _ (Hquiet cancelling_net))
              0%nat _ _ _).
    + reflexivity.
    + constructor.
    + reflexivity.
    + reflexivity.
    + reflexivity.
  - refine (proj1 (proj2 (proj1 (proj2 (abort_kind_follows_caller_signal sample_client
                     submit_config (caller_world false late_cancelling_net) [20%N] []))
                     _ _ (Hquiet late_cancelling_net)))
              0%nat slow_body_response [50%N] _ _ _ _ _).
    + reflexivity.
    + constructor.
    + reflexivity.
    + reflexivity.
    + reflexivity.
    + reflexivity.
    + reflexivity.
  - refine (proj2 (proj2 (proj1 (proj2 (abort_kind_follows_caller_signal sample_client
                     submit_config (caller_world false stalling_net)
                     [10000%N; 25000%N] []))
                     _ _ (Hquiet stalling_net)))
              _ _).
    + reflexivity.
    + constructor.
    + reflexivity.
    + reflexivity.
Defined.

(** ** The polling loop *)

Lemma judge_done (st u : Js.Value) :
  judge st = Done u ↔
  nullish st = false ∧ Js.get st "status" = Js.Str "Completed"
  ∧ Js.truthy (Js.get st "url") = true ∧ u = Js.get st "url".
Proof.
  unfold judge. destruct (nullish st); [split; [discriminate | intros [[=] _]]|].
  assert (Heq : ∀ v lit, Js.strict_eq_string v lit = true ↔ v = Js.Str lit).
  { intros v lit. destruct v; simpl; try (split; discriminate).
    rewrite String.eqb_eq. split; congruence. }
  destruct (Js.strict_eq_string (Js.get st "status") "Completed") eqn:Hc.
  - apply Heq in Hc. destruct (Js.truthy (Js.get st "url")) eqn:Hu; simpl.
    + split; [intros [= <-]; auto | intros (_ & _ & _ & ->); reflexivity].
    + rewrite Hc. simpl. split; [discriminate | intros (_ & _ & [=] & _)].
  - simpl. split.
    + destruct (Js.strict_eq_string (Js.get st "status") "Failed"); discriminate.
    + intros (_ & Hs & _). apply Heq in Hs. congruence.
Qed.

Lemma judge_non_terminal (st : Js.Value) : non_terminal st → judge st = KeepPolling.
Proof.
  intros (Hn & Hf & Hc). unfold judge. rewrite Hn.
  assert (Heq : ∀ v lit, Js.strict_eq_string v lit = true ↔ v = Js.Str lit).
  { intros v lit. destruct v; simpl; try (split; discriminate).
    rewrite String.eqb_eq. split; congruence. }
  destruct (Js.strict_eq_string (Js.get st "status") "Completed") eqn:H1;
    destruct (Js.truthy (Js.get st "url")) eqn:H2; simpl;
    try (apply Heq in H1; exfalso; apply Hc; now split);
    destruct (Js.strict_eq_string (Js.get st "status") "Failed") eqn:H3;
    try reflexivity; apply Heq in H3; contradiction.
Qed.

(** A status of [Completed] without a usable URL is judged exactly like a
    job still in progress. *)
Lemma judge_completed_without_url (st : Js.Value) :
  Js.get st "status" = Js.Str "Completed" →
  Js.truthy (Js.get st "url") = false →
  judge st = KeepPolling.
Proof.
  intros Hs Hu. apply judge_non_terminal. repeat split.
  - destruct st; try discriminate Hs. reflexivity.
  - rewrite Hs. discriminate.
  - intros [_ Ht]. congruence.
Qed.

Lemma poll_S fuel a gid start interval maxWait sig (w : World) :
  poll (S fuel) a gid start interval maxWait sig w =
    if now w - start >? maxWait then (Some (Throw (timed_out maxWait)), w)
    else if signal_aborted sig w then (Some (Throw generation_cancelled), w)
    else
      match getStatus a gid sig w with
      | (Throw t, w1) => (Some (Throw t), w1)
      | (Return st, w1) =>
          match judge st with
          | Done url => (Some (Return url), w1)
          | Failed t => (Some (Throw t), w1)
          | KeepPolling => poll fuel a gid start interval maxWait sig (sleep interval w1)
          end
      end.
Proof. reflexivity. Qed.

(** More fuel does not change a result. *)
Lemma poll_fuel_mono fuel fuel' a gid start interval maxWait sig (w : World) r w' :
  poll fuel a gid start interval maxWait sig w = (Some r, w') →
  (fuel <= fuel')%nat →
  poll fuel' a gid start interval maxWait sig w = (Some r, w').
Proof.
  revert fuel' w. induction fuel as [|fuel IH]; intros fuel' w Hr Hle;
    [discriminate Hr|].
  destruct fuel' as [|fuel']; [lia|].
  rewrite poll_S in *.
  destruct (now w - start >? maxWait); [exact Hr|].
  destruct (signal_aborted sig w); [exact Hr|].
  destruct (getStatus a gid sig w) as [[st|t] w1]; [|exact Hr].
  destruct (judge st); try exact Hr.
  apply IH; [exact Hr | lia].
Qed.

(** The loop returns a value only straight after a status fetch that said
    [Completed] and carried a URL, and the value is that URL. *)
Lemma poll_returns fuel a gid start interval maxWait sig (w : World) u w' :
  poll fuel a gid start interval maxWait sig w = (Some (Return u), w') →
  ∃ w1 st, getStatus a gid sig w1 = (Return st, w') ∧ judge st = Done u.
Proof.
  revert w. induction fuel as [|fuel IH]; intros w Hr; [discriminate Hr|].
  rewrite poll_S in Hr.
  destruct (now w - start >? maxWait); [discriminate Hr|].
  destruct (signal_aborted sig w); [discriminate Hr|].
  destruct (getStatus a gid sig w) as [[st|t] w1] eqn:Hg; [|discriminate Hr].
  destruct (judge st) eqn:Hj; try discriminate Hr.
  - injection Hr as <- <-. eauto.
  - eauto.
Qed.

(** A status fetch that returns has called [fetch] once, with [GET] on the
    status path. *)
Lemma getStatus_fetches a gid sig (w : World) st w' :
  getStatus a gid sig w = (Return st, w') →
  ∃ call, fetches w' = fetches w ++ [call]
          ∧ call_method call = GET
          ∧ href (call_url call) = compose_url (baseUrl (client a)) "/status".
Proof.
  unfold getStatus. intros Hr.
  set (config := mkConfig GET "/status" None _ sig) in Hr.
  destruct (request_prepare (client a) config w) as [[p|t] w0] eqn:Hp.
  - pose proof (request_fetches _ _ _ _ _ Hp) as Hf. rewrite Hr in Hf.
    eexists. split; [exact Hf|]. split; [reflexivity|].
    simpl. now rewrite (request_prepare_url _ _ _ _ _ Hp).
  - unfold request in Hr. rewrite Hp in Hr. discriminate Hr.
Qed.

(** C7: generate-and-wait returns only when a status fetch reports
    [Completed] with an audio URL present, and returns that URL; a fetch
    that reports [Completed] without one does not end the loop: it sleeps
    and polls again, exactly as for a job still in progress. *)
Theorem returns_only_completed_url :
  (∀ fuel a payload options (w : World) u w',
     generateTTS fuel a payload options w = (Some (Return u), w') →
     ∃ gid sig w1 st call,
       getStatus a gid sig w1 = (Return st, w')
       ∧ fetches w' = fetches w1 ++ [call] ∧ call_method call = GET
       ∧ href (call_url call) = compose_url (baseUrl (client a)) "/status"
       ∧ Js.get st "status" = Js.Str "Completed"
       ∧ Js.truthy (Js.get st "url") = true
       ∧ u = Js.get st "url")
  ∧ (∀ st, Js.get st "status" = Js.Str "Completed" →
           Js.truthy (Js.get st "url") = false →
       judge st = judge (status_body "Generating" Js.Null)
       ∧ ∀ fuel a gid start interval maxWait sig (w w1 : World),
           (now w - start >? maxWait) = false →
           signal_aborted sig w = false →
           getStatus a gid sig w = (Return st, w1) →
           poll (S fuel) a gid start interval maxWait sig w
           = poll fuel a gid start interval maxWait sig (sleep interval w1)).
Proof.
  split.
  - intros fuel a payload options w u w' Hr. unfold generateTTS in Hr.
    destruct (startTTS a payload _ w) as [[started|t] w1]; [|discriminate Hr].
    destruct (nullish started); [discriminate Hr|].
    apply poll_returns in Hr. destruct Hr as (w2 & st & Hg & Hj).
    apply judge_done in Hj. destruct Hj as (_ & Hs & Hu & ->).
    destruct (getStatus_fetches _ _ _ _ _ _ Hg) as (call & Hf & Hm & Hh).
    exists (Js.get started "generation_id"), (options ≫= gen_signal), w2, st, call.
    auto 10.
  - intros st Hs Hu. pose proof (judge_completed_without_url st Hs Hu) as Hj.
    split; [rewrite Hj; reflexivity|].
    intros fuel a gid start interval maxWait sig w w1 Ht Hc Hg.
    now rewrite poll_S, Ht, Hc, Hg, Hj.
Qed.

Lemma returns_only_completed_url_witness :
  (generateTTS 5 sample_audixa sample_payload None finishing_world).1
    = Some (Return (Js.Str "https://cdn.audixa.ai/a.mp3"))
  ∧ (∃ st, Js.get st "status" = Js.Str "Completed"
           ∧ Js.get st "url" = Js.Str "https://cdn.audixa.ai/a.mp3")
  ∧ judge (status_body "Completed" Js.Null) = judge (status_body "Generating" Js.Null).
Proof.
  assert (Hrun : generateTTS 5 sample_audixa sample_payload None finishing_world
                 = (Some (Return (Js.Str "https://cdn.audixa.ai/a.mp3")),
                    (generateTTS 5 sample_audixa sample_payload None finishing_world).2)).
  { vm_compute. reflexivity. }
  split; [now rewrite Hrun|]. split.
  - destruct (proj1 returns_only_completed_url _ _ _ _ _ _ _ Hrun)
      as (gid & sig & w1 & st & call & _ & _ & _ & _ & Hs & _ & Hu).
    exists st. split; [exact Hs | now rewrite <- Hu].
  - apply (proj2 returns_only_completed_url (status_body "Completed" Js.Null));
      reflexivity.
Defined.

(** A sleep during which the caller aborts nothing only moves the clock. *)
Lemma sleep_quiet (interval : Z) (w : World) :
  timers_idle w →
  nap_aborts (naps w (naps_taken w)) = [] →
  now w + timer_delay interval <= now (sleep interval w)
  ∧ signals (sleep interval w) = signals w
  ∧ timers (sleep interval w) = timers w
  ∧ fetches (sleep interval w) = fetches w
  ∧ same_script w (sleep interval w).
Proof.
  intros Hidle Hnap. unfold sleep. rewrite Hnap. cbn [fold_left].
  rewrite run_timers_none_due.
  - simpl. repeat split. lia.
  - intros tm Htm. apply idle_not_due, (idle_In (timers w) tm Hidle Htm).
Qed.

Section PollingAJobThatNeverEnds.

Variables (a : Audixa) (gid : Js.Value) (sig : option SignalId).
Variables (start interval maxWait : Z) (w_init : World) (first : nat).

Hypothesis status_url_parses :
  url_parses w_init (compose_url (baseUrl (client a)) "/status") = true.
Hypothesis caller_never_aborts : ∀ k, nap_aborts (naps w_init k) = [].
Hypothesis job_never_ends :
  never_terminal w_init (timeout (client a)) interval first.

(** One round of the loop: fetch, sleep, and the clock has moved on. *)
Lemma poll_round (w : World) :
  poll_inv w_init sig first w →
  (now w - start >? maxWait) = false →
  ∃ w1, (∀ fuel, poll (S fuel) a gid start interval maxWait sig w
                 = poll fuel a gid start interval maxWait sig w1)
    ∧ poll_inv w_init sig first w1
    ∧ now w < now w1
    ∧ ∃ call, fetches w1 = fetches w ++ [call] ∧ status_call a call.
Proof.
  intros (Hscript & Hidle & Hsilent & Hfirst) Htime.
  destruct Hscript as (Hnet & Hnaps & Hurl).
  destruct (job_never_ends (length (fetches w)) Hfirst)
    as (resp & st & el & Hans & Hok & Hst & Hprogress).
  destruct (request_answered (client a)
              (mkConfig GET "/status" None
                 (Some [("generation_id", Js.to_string gid)]) sig)
              w resp st el) as (w1 & Hreq & Hnow & Hel & Hidle1 & Hsilent1
                                & (sg & Hlog1) & Hnaps1 & Hscript1); try assumption.
  - simpl. now rewrite Hurl.
  - now rewrite Hnet.
  - destruct Hscript1 as (Hnet1 & Hnaps1' & Hurl1).
    destruct (sleep_quiet interval w1 Hidle1) as (Hlater & Hsig2 & Htim2 & Hfet2 & Hscript2).
    { rewrite Hnaps1', Hnaps. apply caller_never_aborts. }
    exists (sleep interval w1). split; [|split; [|split]].
    + intros fuel. rewrite poll_S, Htime.
      assert (Hc : signal_aborted sig w = false).
      { apply caller_silent_alt in Hsilent. destruct sig; [apply Hsilent | reflexivity]. }
      rewrite Hc. unfold getStatus. rewrite Hreq.
      now rewrite (judge_non_terminal st Hst).
    + split; [|split; [|split]].
      * apply (same_script_trans w_init w1); [|exact Hscript2].
        apply (same_script_trans w_init w); repeat split; assumption.
      * unfold timers_idle. rewrite Htim2. exact Hidle1.
      * apply caller_silent_alt. apply caller_silent_alt in Hsilent1.
        rewrite Hsig2. exact Hsilent1.
      * rewrite Hfet2, Hlog1, length_app. simpl. lia.
    + pose proof (timer_delay_pos interval). lia.
    + eexists. rewrite Hfet2. split; [exact Hlog1|]. split; reflexivity.
Qed.

(** The loop ends, and it ends in the time-out. *)
Lemma poll_times_out (n : nat) (w : World) :
  poll_inv w_init sig first w →
  maxWait - (now w - start) < Z.of_nat n →
  ∃ fuel w',
    poll fuel a gid start interval maxWait sig w
      = (Some (Throw (timed_out maxWait)), w')
    ∧ maxWait < now w' - start
    ∧ ∃ calls, fetches w' = fetches w ++ calls
               ∧ Forall (status_call a) calls
               ∧ (now w - start <= maxWait → calls ≠ []).
Proof.
  revert w. induction n as [|n IH]; intros w Hinv Hbudget.
  - exists 1%nat, w. rewrite poll_S.
    destruct (Z.gtb_spec (now w - start) maxWait); [|lia].
    split; [reflexivity|]. split; [lia|].
    exists []. rewrite app_nil_r. split; [reflexivity|]. split; [constructor | lia].
  - destruct (now w - start >? maxWait) eqn:Htime.
    + exists 1%nat, w. rewrite poll_S, Htime.
      apply Z.gtb_lt in Htime.
      split; [reflexivity|]. split; [lia|].
      exists []. rewrite app_nil_r. split; [reflexivity|]. split; [constructor | lia].
    + destruct (poll_round w Hinv Htime)
        as (w1 & Hstep & Hinv1 & Hlater & call & Hlog & Hcall).
      destruct (IH w1 Hinv1) as (fuel & w' & Hpoll & Hlate & calls & Hlog' & Hcalls & _);
        [lia|].
      exists (S fuel), w'. rewrite Hstep.
      split; [exact Hpoll|]. split; [exact Hlate|].
      exists (call :: calls). split; [|split].
      * rewrite Hlog', Hlog, <- app_assoc. reflexivity.
      * now constructor.
      * discriminate.
Qed.

End PollingAJobThatNeverEnds.

Lemma generateTTS_with_options fuel a payload every maxW sig (w : World) :
  generateTTS fuel a payload (Some (mkGenerateOptions every maxW sig)) w =
    match startTTS a payload sig w with
    | (Throw t, w1) => (Some (Throw t), w1)
    | (Return started, w1) =>
        if nullish started then (Some (Throw type_error), w1)
        else poll fuel a (Js.get started "generation_id") (now w1)
               (default 1000 every) (default 120000 maxW) sig w1
    end.
Proof. reflexivity. Qed.



(** ** Which values are thrown *)

Lemma status_kind_is_produced (st : Z) : In (getErrorCodeFromStatus st) produced_kinds.
Proof.
  unfold getErrorCodeFromStatus.
  repeat match goal with
  | |- context [st =? ?n] => destruct (st =? n); [simpl; tauto|]
  end.
  simpl. tauto.
Qed.

Lemma unauthorized_not_produced : ¬ In UNAUTHORIZED produced_kinds.
Proof. simpl. intros H. repeat destruct H as [H|H]; try discriminate H. exact H. Qed.

Lemma request_prepare_throws c config (w : World) t w0 :
  request_prepare c config w = (Throw t, w0) →
  t = ThrownError "TypeError" "Invalid URL".
Proof.
  unfold request_prepare. destruct (url_parses w _).
  - cbv beta iota delta [AbortController_new setTimeout].
    destruct (signal config) as [s|]; [|discriminate].
    destruct (combineSignals _ _ _). discriminate.
  - now intros [= <- _].
Qed.

Lemma request_try_throws c config url id sg (w : World) t w1 :
  request_try c config url id sg w = (Throw t, w1) →
  (∃ r, t = thrown_of r)
  ∨ (∃ st data e, fromResponse st data = Return e ∧ t = ThrownAudixa e)
  ∨ t = cannot_convert.
Proof.
  unfold request_try.
  destruct (fetch _ w) as [[resp|r] w']; [|intros [= <- _]; eauto].
  destruct (parse_body _ _ _) as [[data|r] w'']; [|intros [= <- _]; eauto].
  destruct (negb (ok resp)); [|discriminate].
  destruct (fromResponse (resp_status resp) data) as [e|t'] eqn:Hr.
  - intros [= <- _]. right. left. eauto.
  - intros [= <- _]. right. right. now apply fromResponse_throws in Hr.
Qed.

Lemma fromResponse_code (st : Z) (data : Js.Value) e :
  fromResponse st data = Return e → code e = getErrorCodeFromStatus st.
Proof.
  unfold fromResponse, AudixaError_new.
  destruct (Js.has_string_form _); [now intros [= <-] | discriminate].
Qed.

(** Whatever [request] throws as an [AudixaError] carries one of the eight
    kinds other than [UNAUTHORIZED]. *)
Lemma request_kind_is_produced c config (w : World) t w' :
  request c config w = (Throw t, w') → kind_is_produced t.
Proof.
  unfold request.
  destruct (request_prepare c config w) as [[p|t0] w0] eqn:Hp.
  - destruct (request_try _ _ _ _ _ w0) as [[v|error] w1] eqn:Ht; [discriminate|].
    destruct (request_catch _ _ _ _) as [t1 w2] eqn:Hc. intros [= <- _].
    apply request_try_throws in Ht. unfold request_catch in Hc.
    destruct Ht as [[r ->] | [(st & data & e0 & Hr & ->) | ->]].
    + destruct r as [name msg|v]; simpl in Hc.
      * destruct (String.eqb name "AbortError");
          [destruct (signal_aborted _ _)|];
          injection Hc as <- _; intros e [= <-]; simpl; tauto.
      * injection Hc as <- _. intros e [= <-]. simpl. tauto.
    + injection Hc as <- _. intros e [= <-].
      rewrite (fromResponse_code _ _ _ Hr). apply status_kind_is_produced.
    + simpl in Hc. injection Hc as <- _. intros e [= <-]. simpl. tauto.
  - intros [= <- _]. apply request_prepare_throws in Hp. subst t0.
    intros e [=].
Qed.

Lemma poll_kind_is_produced fuel a gid start interval maxWait sig (w : World) t w' :
  poll fuel a gid start interval maxWait sig w = (Some (Throw t), w') →
  kind_is_produced t.
Proof.
  revert w. induction fuel as [|fuel IH]; intros w Hr; [discriminate Hr|].
  rewrite poll_S in Hr.
  destruct (now w - start >? maxWait); [injection Hr as <- _; intros e [=]|].
  destruct (signal_aborted sig w); [injection Hr as <- _; intros e [=]|].
  destruct (getStatus a gid sig w) as [[st|t0] w1] eqn:Hg.
  - unfold judge in Hr.
    destruct (nullish st); [injection Hr as <- _; intros e [=]|].
    destruct (_ && _); [discriminate Hr|].
    destruct (Js.strict_eq_string _ "Failed"); [injection Hr as <- _; intros e [=]|].
    now apply IH in Hr.
  - injection Hr as <- _. now apply request_kind_is_produced in Hg.
Qed.

(** C1 fails on the failures generate-and-wait raises itself: a failed
    job, an exceeded maximum wait and a cancellation are each raised as a
    plain [Error], which is no [AudixaError] and carries no kind. *)
Theorem generate_raises_plain_errors :
  (generateTTS 2 sample_audixa sample_payload None failing_world).1
    = Some (Throw (ThrownError "Error" "TTS generation failed"))
  ∧ (generateTTS 3 sample_audixa sample_payload (Some (wait_100 None))
       generating_world).1
    = Some (Throw (ThrownError "Error" "Generation timed out after 100ms"))
  ∧ (generateTTS 3 sample_audixa sample_payload
       (Some (mkGenerateOptions None None (Some 0%nat))) cancelling_world).1
    = Some (Throw (ThrownError "Error" "Generation was cancelled"))
  ∧ (∀ name msg, thrown_kind (ThrownError name msg) = None).
Proof.
  split; [|split; [|split]]; [vm_compute; reflexivity ..|].
  intros name msg. reflexivity.
Qed.

(** C10 fails on the failures generate-and-wait raises itself: the error
    of a failed job is a plain [Error], not the [AudixaError] its
    documentation promises, so it carries none of the eight kinds: it
    carries no kind at all. *)
Theorem failed_job_error_has_no_kind :
  ∃ t, (generateTTS 2 sample_audixa sample_payload None failing_world).1
         = Some (Throw t)
       ∧ thrown_kind t = None
       ∧ ¬ ∃ k, thrown_kind t = Some k ∧ In k produced_kinds.
Proof.
  exists (ThrownError "Error" "TTS generation failed").
  split; [vm_compute; reflexivity|]. split; [reflexivity|].
  intros (k & Hk & _). discriminate Hk.
Qed.

(** * Further properties of the code *)

(** ** Slashes *)

Lemma strip_trailing_slashes_all (k : nat) : strip_trailing_slashes (slashes k) = "".
Proof.
  induction k as [|k IH]; simpl; [reflexivity|].
  rewrite IH. reflexivity.
Qed.

Lemma strip_trailing_slashes_app (b : string) (k : nat) :
  strip_trailing_slashes (b +:+ slashes k) = strip_trailing_slashes b.
Proof.
  induction b as [|c b IH].
  - rewrite append_nil_l. apply strip_trailing_slashes_all.
  - rewrite append_cons. simpl. now rewrite IH.
Qed.

Lemma strip_leading_slashes_app (m : nat) (p : string) :
  strip_leading_slashes (slashes m +:+ p) = strip_leading_slashes p.
Proof.
  induction m as [|m IH]; [reflexivity|].
  simpl slashes. rewrite append_cons. simpl. exact IH.
Qed.

(** X1: however many slashes end the base URL or start the path, the
    composed URL is the same. *)
Theorem compose_url_ignores_extra_slashes (b p : string) (k m : nat) :
  compose_url (b +:+ slashes k) (slashes m +:+ p) = compose_url b p.
Proof.
  unfold compose_url.
  now rewrite strip_trailing_slashes_app, strip_leading_slashes_app.
Qed.

(** ** The call handed to [fetch] *)

Lemma request_prepare_signal_fresh c config (w : World) p w0 :
  request_prepare c config w = (Return p, w0) →
  (length (signals w) <= prep_signal p)%nat.
Proof.
  unfold request_prepare. destruct (url_parses w _); [|discriminate].
  cbv beta iota delta [AbortController_new setTimeout].
  destruct (signal config) as [s|].
  - unfold combineSignals, AbortController_new. intros [= <- _]. simpl.
    rewrite length_app. lia.
  - intros [= <- _]. simpl. lia.
Qed.

Lemma request_log c config (w : World) :
  url_parses w (compose_url (baseUrl c) (path config)) = true →
  ∃ sg, fetches (request c config w).2 = fetches w ++
          [mkFetchCall
             (mkURL (compose_url (baseUrl c) (path config))
                (default [] (params config)))
             (method config)
             [("Content-Type", "application/json"); ("x-api-key", apiKey c)]
             (sent_body config) sg]
        ∧ (length (signals w) <= sg)%nat.
Proof.
  intros Hu. destruct (request_prepare_accepts c config w Hu) as (p & w0 & Hp).
  exists (prep_signal p). split.
  - rewrite (request_fetches _ _ _ _ _ Hp). unfold fetch_call.
    now rewrite (request_prepare_url _ _ _ _ _ Hp).
  - now apply request_prepare_signal_fresh with (w0 := w0) (c := c) (config := config).
Qed.

(** X2: once the URL parses, [request] calls [fetch] exactly once, whatever
    the outcome, and never again: with the configured method, the two
    headers (content type and API key), the body when there is one, and a
    signal of its own making, never the caller's. *)
Theorem request_calls_fetch_once c config (w : World) :
  url_parses w (compose_url (baseUrl c) (path config)) = true →
  ∃ sg, fetches (request c config w).2 = fetches w ++
          [mkFetchCall
             (mkURL (compose_url (baseUrl c) (path config))
                (default [] (params config)))
             (method config)
             [("Content-Type", "application/json"); ("x-api-key", apiKey c)]
             (sent_body config) sg]
        ∧ (length (signals w) <= sg)%nat
        ∧ (∀ s, signal config = Some s → (s < length (signals w))%nat → sg ≠ s).
Proof.
  intros Hu. destruct (request_log c config w Hu) as (sg & Hlog & Hfresh).
  exists sg. split; [exact Hlog|]. split; [exact Hfresh|].
  intros s _ Hs. lia.
Qed.

Lemma request_calls_fetch_once_witness :
  ∃ sg, fetches (request sample_client submit_config (caller_world false stalling_net)).2
        = [mkFetchCall (mkURL "https://x/v2/tts" []) POST
             [("Content-Type", "application/json"); ("x-api-key", "key")]
             (Some (Js.Obj [("text", Js.Str "hello")])) sg]
        ∧ sg ≠ 0%nat.
Proof.
  destruct (request_calls_fetch_once sample_client submit_config
              (caller_world false stalling_net)) as (sg & Hlog & _ & Hne).
  - reflexivity.
  - exists sg. split; [exact Hlog|]. apply Hne; [reflexivity | simpl; lia].
Defined.



(** ** What comes back *)

Lemma parse_body_resolves resp watch (w : World) data w' :
  parse_body resp watch w = (Resolves data, w') → body_of resp = Resolves data.
Proof.
  rewrite parse_body_read. unfold read_body.
  destruct (in_flight watch (reading resp) w) as [[] w1]; [discriminate|].
  now intros [= -> _].
Qed.

Lemma completes_body c config (w : World) resp data :
  completes c config w resp data → body_of resp = Resolves data.
Proof.
  intros (p & w0 & w1 & w2 & _ & _ & Hb). now apply parse_body_resolves in Hb.
Qed.

(** X4: a 2xx answer is handed back as it is, unchecked: the JSON value
    when the content type mentions [application/json], else the text of the
    body as a string. *)
Theorem success_returns_body_unchecked c config (w : World) resp data :
  completes c config w resp data →
  ok resp = true →
  (request c config w).1 = Return data
  ∧ (is_json resp = true → json resp = Resolves data)
  ∧ (is_json resp = false → ∃ s, text resp = Resolves s ∧ data = Js.Str s).
Proof.
  intros Hc Hok. pose proof (completes_body _ _ _ _ _ Hc) as Hb.
  rewrite (request_completes _ _ _ _ _ Hc), Hok. split; [reflexivity|].
  unfold body_of in Hb. split; intros Hj; rewrite Hj in Hb; [exact Hb|].
  destruct (text resp) as [s|r]; [|discriminate Hb].
  injection Hb as <-. eauto.
Qed.

Lemma success_returns_body_unchecked_witness :
  (getVoices sample_audixa base None voices_world).1 = Return voices_body.
Proof.
  refine (proj1 (success_returns_body_unchecked sample_client
                   (mkConfig GET "/voices" None (Some [("model", "base")]) None)
                   voices_world (json_response 200 voices_body) voices_body _ _)).
  - do 4 eexists. split; [|split]; vm_compute; reflexivity.
  - reflexivity.
Defined.

Lemma get_of_non_object (v : Js.Value) (k : string) :
  (∀ fields, v ≠ Js.Obj fields) → Js.get v k = Js.Undefined.
Proof. intros H. destruct v; try reflexivity. now destruct (H fields). Qed.

(** X5: when the body of a non-2xx answer is not a JSON object (a page of
    HTML, a JSON array, [null]), the error still has the kind of the status
    and keeps status and body, and its message is the text made from the
    status. *)
Theorem error_from_non_object_body c config (w : World) resp data :
  completes c config w resp data →
  ok resp = false →
  (∀ fields, data ≠ Js.Obj fields) →
  (request c config w).1 =
    Throw (ThrownAudixa
             (mkAudixaError (status_message (resp_status resp))
                (getErrorCodeFromStatus (resp_status resp))
                (Some (resp_status resp)) (Some data)))
  ∧ (is_json resp = false → ∃ s, text resp = Resolves s ∧ data = Js.Str s).
Proof.
  intros Hc Hok Hobj. pose proof (completes_body _ _ _ _ _ Hc) as Hb.
  rewrite (request_completes _ _ _ _ _ Hc), Hok. split.
  - assert (Hmsg : fromResponse_message (resp_status resp) data
                   = Js.Str (status_message (resp_status resp))).
    { rewrite fromResponse_message_cases.
      now rewrite !(get_of_non_object data) by assumption. }
    rewrite http_error_converted; now rewrite Hmsg.
  - intros Hj. unfold body_of in Hb. rewrite Hj in Hb.
    destruct (text resp) as [s|r]; [|discriminate Hb].
    injection Hb as <-. eauto.
Qed.

Lemma error_from_non_object_body_witness :
  (request sample_client status_config html_world).1 =
    Throw (ThrownAudixa
             (mkAudixaError "Request failed with status 502" UNKNOWN (Some 502)
                (Some (Js.Str "<html>Bad Gateway</html>")))).
Proof.
  refine (proj1 (error_from_non_object_body sample_client status_config html_world
                   html_response (Js.Str "<html>Bad Gateway</html>") _ _ _)).
  - do 4 eexists. split; [|split]; vm_compute; reflexivity.
  - reflexivity.
  - discriminate.
Defined.

(** ** Failures that are no HTTP answer *)

Lemma request_fetch_rejected c config (w : World) (r : Rejection) :
  fetch_fails c config w r →
  ∃ w1, (request c config w).1
        = Throw (request_catch config 0%nat (thrown_of r) w1).1.
Proof.
  intros (p & w0 & w1 & Hp & Hf). exists w1.
  unfold request. rewrite Hp. unfold request_try. rewrite Hf.
  unfold request_catch. destruct r as [name msg|v]; simpl; [|reflexivity].
  destruct (String.eqb name "AbortError"); [|reflexivity].
  unfold signal_aborted. rewrite !clearTimeout_signals.
  destruct (match signal config with Some id => _ | None => _ end); reflexivity.
Qed.

Lemma request_body_rejected c config (w : World) resp (r : Rejection) :
  body_fails c config w resp r →
  ∃ w2, (request c config w).1
        = Throw (request_catch config 0%nat (thrown_of r) w2).1.
Proof.
  intros (p & w0 & w1 & w2 & Hp & Hf & Hb). exists w2.
  unfold request. rewrite Hp. unfold request_try. rewrite Hf, Hb.
  unfold request_catch. destruct r as [name msg|v]; simpl; [|reflexivity].
  destruct (String.eqb name "AbortError"); [|reflexivity].
  unfold signal_aborted. rewrite !clearTimeout_signals.
  destruct (match signal config with Some id => _ | None => _ end); reflexivity.
Qed.

Lemma catch_other_error config id name msg (w : World) :
  name ≠ "AbortError" →
  (request_catch config id (ThrownError name msg) w).1
  = ThrownAudixa (mkAudixaError ("Network error: " +:+ msg) NETWORK_ERROR None None).
Proof.
  intros Hn. unfold request_catch.
  destruct (String.eqb_spec name "AbortError"); [contradiction | reflexivity].
Qed.

(** X6: when [fetch] rejects with an [Error] that is no abort (refused
    connection, DNS, TLS), dispatch raises [NETWORK_ERROR] whose message is
    "Network error: " followed by the message of that error, with neither
    status nor payload. *)
Theorem transport_failure_is_network_error c config (w : World) name msg :
  fetch_fails c config w (RejectError name msg) →
  name ≠ "AbortError" →
  (request c config w).1 =
    Throw (ThrownAudixa
             (mkAudixaError ("Network error: " +:+ msg) NETWORK_ERROR None None)).
Proof.
  intros Hf Hn. destruct (request_fetch_rejected _ _ _ _ Hf) as (w1 & ->).
  simpl thrown_of. now rewrite catch_other_error.
Qed.

Lemma transport_failure_is_network_error_witness :
  (request sample_client status_config refusing_world).1 =
    Throw (ThrownAudixa
             (mkAudixaError "Network error: fetch failed" NETWORK_ERROR None None)).
Proof.
  apply (transport_failure_is_network_error sample_client status_config
           refusing_world "TypeError" "fetch failed").
  - do 3 eexists. split; vm_compute; reflexivity.
  - discriminate.
Defined.

(** X7: when [fetch] or the reading of the body rejects with a value that
    is no [Error] at all, dispatch raises [UNKNOWN] with the message "An
    unknown error occurred". *)
Theorem non_error_rejection_is_unknown c config (w : World) (v : Js.Value) :
  fetch_fails c config w (RejectValue v)
  ∨ (∃ resp, body_fails c config w resp (RejectValue v)) →
  (request c config w).1 =
    Throw (ThrownAudixa
             (mkAudixaError "An unknown error occurred" UNKNOWN None None)).
Proof.
  intros [Hf | (resp & Hb)].
  - destruct (request_fetch_rejected _ _ _ _ Hf) as (w1 & ->). reflexivity.
  - destruct (request_body_rejected _ _ _ _ _ Hb) as (w1 & ->). reflexivity.
Qed.

Lemma non_error_rejection_is_unknown_witness :
  (request sample_client status_config odd_world).1 =
    Throw (ThrownAudixa
             (mkAudixaError "An unknown error occurred" UNKNOWN None None)).
Proof.
  apply (non_error_rejection_is_unknown sample_client status_config odd_world
           (Js.Str "boom")).
  left. do 3 eexists. split; vm_compute; reflexivity.
Defined.

Lemma status_kind_not_network (st : Z) : getErrorCodeFromStatus st ≠ NETWORK_ERROR.
Proof.
  unfold getErrorCodeFromStatus.
  repeat match goal with
  | |- context [st =? ?n] => destruct (st =? n); [discriminate|]
  end.
  discriminate.
Qed.



(** ** A base URL that does not parse *)

Lemma request_unparsable c config (w : World) :
  url_parses w (compose_url (baseUrl c) (path config)) = false →
  request c config w = (Throw (ThrownError "TypeError" "Invalid URL"), w).
Proof. intros Hu. unfold request, request_prepare. now rewrite Hu. Qed.

(** X9: construction accepts any non-empty base URL without looking at
    it; if it does not parse, every operation throws the [TypeError] of the
    URL constructor, which is no [AudixaError], and nothing at all has
    happened: no call, no timer, no controller. *)
Theorem unparsable_base_url_surfaces_as_TypeError (key b : string)
    (t : option Z) (w : World) (payload gid : Js.Value) (model : TTSModel)
    (sig : option SignalId) (options : option GenerateOptions) (fuel : nat) :
  key ≠ "" → b ≠ "" →
  (∀ p, url_parses w (compose_url b p) = false) →
  ∃ a, Audixa_new (Js.Str key) (Some (mkOptions (Some b) t)) = Return a
    ∧ startTTS a payload sig w = (Throw (ThrownError "TypeError" "Invalid URL"), w)
    ∧ getStatus a gid sig w = (Throw (ThrownError "TypeError" "Invalid URL"), w)
    ∧ getVoices a model sig w = (Throw (ThrownError "TypeError" "Invalid URL"), w)
    ∧ generateTTS fuel a payload options w
      = (Some (Throw (ThrownError "TypeError" "Invalid URL")), w)
    ∧ thrown_kind (ThrownError "TypeError" "Invalid URL") = None.
Proof.
  intros Hkey Hb Hu.
  assert (Hnew : Audixa_new (Js.Str key) (Some (mkOptions (Some b) t))
                 = Return (mkAudixa (mkClient b
                            (timeout_or_default (Some (mkOptions (Some b) t))) key))).
  { unfold Audixa_new, HttpClient_new. simpl.
    destruct (String.eqb_spec key ""); [contradiction|].
    destruct (String.eqb_spec b ""); [contradiction|]. reflexivity. }
  eexists. split; [exact Hnew|].
  assert (Hs : ∀ payload' sig',
            startTTS (mkAudixa (mkClient b
                (timeout_or_default (Some (mkOptions (Some b) t))) key)) payload' sig' w
            = (Throw (ThrownError "TypeError" "Invalid URL"), w)).
  { intros. unfold startTTS. apply request_unparsable. apply Hu. }
  split; [apply Hs|].
  split; [unfold getStatus; apply request_unparsable; apply Hu|].
  split; [unfold getVoices; apply request_unparsable; apply Hu|].
  split; [|reflexivity].
  unfold generateTTS. now rewrite Hs.
Qed.

Lemma unparsable_base_url_surfaces_as_TypeError_witness :
  ∃ a, Audixa_new (Js.Str "key") (Some (mkOptions (Some "not a url") None)) = Return a
    ∧ (generateTTS 9 a sample_payload None lost_world).1
      = Some (Throw (ThrownError "TypeError" "Invalid URL"))
    ∧ fetches (generateTTS 9 a sample_payload None lost_world).2 = [].
Proof.
  destruct (unparsable_base_url_surfaces_as_TypeError "key" "not a url" None
              lost_world sample_payload Js.Null base None None 9)
    as (a & Ha & _ & _ & _ & Hg & _).
  - discriminate.
  - discriminate.
  - intros p. reflexivity.
  - exists a. split; [exact Ha|]. rewrite Hg. split; reflexivity.
Defined.

(** ** Timers are always cleared *)

Lemma request_prepare_throw_world c config (w : World) t w0 :
  request_prepare c config w = (Throw t, w0) → w0 = w.
Proof.
  unfold request_prepare. destruct (url_parses w _).
  - cbv beta iota delta [AbortController_new setTimeout].
    destruct (signal config) as [s|]; [|discriminate].
    destruct (combineSignals _ _ _). discriminate.
  - now intros [= _ <-].
Qed.

Lemma request_prepare_timers c config (w : World) p w0 :
  request_prepare c config w = (Return p, w0) →
  prep_timeoutId p = length (timers w)
  ∧ ∃ tm, timers w0 = timers w ++ [tm].
Proof.
  unfold request_prepare. destruct (url_parses w _); [|discriminate].
  cbv beta iota delta [AbortController_new setTimeout].
  destruct (signal config) as [s|].
  - unfold combineSignals, AbortController_new. intros [= <- <-].
    split; [reflexivity|]. eexists.
    etransitivity; [apply addEventListener_frame|].
    etransitivity; [apply addEventListener_frame|]. reflexivity.
  - intros [= <- <-]. split; [reflexivity|]. eexists. reflexivity.
Qed.

Lemma run_timers_last (w : World) (old : list Timer) (tm : Timer) :
  timers w = old ++ [tm] → Forall (fun tm => active tm = false) old →
  ∃ tm', timers (run_timers w) = old ++ [tm'].
Proof.
  intros Ht Hold. unfold run_timers. simpl. rewrite Ht, List.map_app.
  rewrite map_fixed.
  - simpl. eauto.
  - intros x Hx. now rewrite (idle_not_due _ _ (idle_In old x Hold Hx)).
Qed.

Lemma happen_timers (e : Event) (w : World) : timers (happen e w) = timers w.
Proof. destruct e; reflexivity. Qed.

Lemma in_flight_last watch (events : list Event) (w : World)
    (old : list Timer) (tm : Timer) :
  timers w = old ++ [tm] → Forall (fun tm => active tm = false) old →
  ∃ tm', timers (in_flight watch events w).2 = old ++ [tm'].
Proof.
  intros Ht Hold. revert w tm Ht.
  induction events as [|e rest IH]; intros w tm Ht;
    destruct (run_timers_last w old tm Ht Hold) as (tm1 & H1).
  - rewrite in_flight_nil. destruct (is_aborted _ _); eauto.
  - rewrite in_flight_cons. destruct (is_aborted _ _); [eauto|].
    apply (IH _ tm1). now rewrite happen_timers.
Qed.

Lemma run_timers_idle (w : World) : timers_idle w → timers_idle (run_timers w).
Proof.
  intros Hidle. unfold timers_idle, run_timers. simpl. rewrite map_fixed; [exact Hidle|].
  intros x Hx. now rewrite (idle_not_due _ _ (idle_In _ x Hidle Hx)).
Qed.

Lemma in_flight_idle watch (events : list Event) (w : World) :
  timers_idle w → timers_idle (in_flight watch events w).2.
Proof.
  revert w. induction events as [|e rest IH]; intros w Hidle;
    pose proof (run_timers_idle w Hidle) as H1.
  - rewrite in_flight_nil. destruct (is_aborted _ _); exact H1.
  - rewrite in_flight_cons. destruct (is_aborted _ _); [exact H1|].
    apply IH. unfold timers_idle. now rewrite happen_timers.
Qed.

Lemma clearTimeout_idle (id : TimerId) (w : World) :
  timers_idle w → timers_idle (clearTimeout id w).
Proof.
  unfold timers_idle, clearTimeout. intros Hidle.
  destruct (timers w !! id) as [tm|]; [|exact Hidle].
  simpl. apply Forall_insert; [exact Hidle | reflexivity].
Qed.

Lemma fetch_world (call : FetchCall) (w : World) :
  (fetch call w).2
  = (in_flight (call_signal call) (flight (network w (length (fetches w))))
       (log_fetch call w)).2.
Proof. unfold fetch. destruct (in_flight _ _ _) as [[] w1]; reflexivity. Qed.

Lemma parse_body_world resp watch (w : World) :
  (parse_body resp watch w).2 = (in_flight watch (reading resp) w).2.
Proof.
  rewrite parse_body_read. unfold read_body.
  destruct (in_flight _ _ _) as [[] w1]; reflexivity.
Qed.

Lemma request_catch_world config id error (w : World) :
  (request_catch config id error w).2 = clearTimeout id w.
Proof.
  unfold request_catch. destruct error as [e|name msg|v]; simpl; try reflexivity.
  destruct (String.eqb name "AbortError"); [destruct (signal_aborted _ _)|];
    reflexivity.
Qed.

Lemma request_catch_world_pair config id error (w : World) :
  (let '(t, w2) := request_catch config id error w in (Throw t : Outcome Js.Value, w2))
  = (Throw (request_catch config id error w).1, clearTimeout id w).
Proof.
  pose proof (request_catch_world config id error w) as H.
  destruct (request_catch config id error w) as [t w2]. simpl in *. now subst.
Qed.

(** X10: no timer outlives a request: if none was pending before, none is
    pending after, however the request ends (answer, HTTP error, network
    failure, time-out, cancellation, unparsable URL). *)
Theorem request_leaves_no_timer c config (w : World) :
  timers_idle w → timers_idle (request c config w).2.
Proof.
  intros Hidle. unfold request.
  destruct (request_prepare c config w) as [[p|t] w0] eqn:Hp.
  2:{ apply request_prepare_throw_world in Hp. now subst w0. }
  destruct (request_prepare_timers _ _ _ _ _ Hp) as (Htid & tm & Htim).
  unfold request_try.
  pose proof (fetch_world (fetch_call c config (prep_url p) (prep_signal p)) w0) as Hw1.
  destruct (in_flight_last (prep_signal p)
              (flight (network w0 (length (fetches w0))))
              (log_fetch (fetch_call c config (prep_url p) (prep_signal p)) w0)
              (timers w) tm Htim Hidle) as (tm' & Hlast).
  change (call_signal (fetch_call c config (prep_url p) (prep_signal p)))
    with (prep_signal p) in Hw1.
  rewrite <- Hw1 in Hlast.
  assert (Hcleared : timers_idle (clearTimeout (prep_timeoutId p)
            (fetch (fetch_call c config (prep_url p) (prep_signal p)) w0).2)).
  { unfold timers_idle. rewrite Htid, (clearTimeout_last (timers w) tm' _ Hlast).
    apply Forall_app. split; [exact Hidle | now constructor]. }
  destruct (fetch _ w0) as [[resp|r] w1]; simpl in Hcleared.
  - pose proof (parse_body_world resp (prep_signal p)
                  (clearTimeout (prep_timeoutId p) w1)) as Hw3.
    pose proof (in_flight_idle (prep_signal p) (reading resp) _ Hcleared) as Hidle3.
    rewrite <- Hw3 in Hidle3.
    destruct (parse_body _ _ _) as [[data|r] w3]; simpl in Hidle3.
    + destruct (negb (ok resp)); simpl; [|exact Hidle3].
      destruct (fromResponse _ _) as [e|t]; simpl; [now apply clearTimeout_idle|].
      pose proof (request_catch_world config (prep_timeoutId p) t w3) as Hc.
      destruct (request_catch _ _ _ _) as [t' w4]. simpl in *. subst w4.
      now apply clearTimeout_idle.
    + pose proof (request_catch_world config (prep_timeoutId p) (thrown_of r) w3) as Hc.
      destruct (request_catch _ _ _ _) as [t w4]. simpl in *. subst w4.
      now apply clearTimeout_idle.
  - pose proof (request_catch_world config (prep_timeoutId p) (thrown_of r) w1) as Hc.
    destruct (request_catch _ _ _ _) as [t w4]. simpl in *. subst w4.
    exact Hcleared.
Qed.

Lemma request_leaves_no_timer_witness :
  timers_idle (request sample_client submit_config (caller_world false stalling_net)).2
  ∧ length (timers (request sample_client submit_config
                      (caller_world false stalling_net)).2) = 1%nat.
Proof.
  split; [|vm_compute; reflexivity].
  apply (request_leaves_no_timer sample_client submit_config
           (caller_world false stalling_net)).
  constructor.
Defined.

(** ** Listeners on the caller's signal *)

Lemma abort_listeners (fuel : nat) (id j : SignalId) (heap : list AbortSignal) :
  listeners <$> (abort fuel id heap !! j) = listeners <$> (heap !! j).
Proof.
  revert id heap. induction fuel as [|fuel IH]; intros id heap; [reflexivity|].
  rewrite abort_S. destruct (heap !! id) as [s|] eqn:Hs; [|reflexivity].
  destruct (aborted s); [reflexivity|].
  apply (fold_left_invariant
           (fun h => listeners <$> (h !! j) = listeners <$> (heap !! j))).
  - intros h [t] Hh. now rewrite IH.
  - destruct (decide (id = j)) as [->|Hne].
    + rewrite list_lookup_insert_eq, Hs; [reflexivity|].
      apply lookup_lt_is_Some. eauto.
    + now rewrite list_lookup_insert_ne.
Qed.

Lemma run_timers_listeners (w : World) (j : SignalId) :
  listeners <$> (signals (run_timers w) !! j) = listeners <$> (signals w !! j).
Proof.
  unfold run_timers. simpl.
  apply (fold_left_invariant
           (fun h => listeners <$> (h !! j) = listeners <$> (signals w !! j)));
    [|reflexivity].
  intros h tm Hh. destruct (callback tm) as [t]. simpl. unfold signal_abort.
  now rewrite abort_listeners.
Qed.

Lemma happen_listeners (e : Event) (w : World) (j : SignalId) :
  listeners <$> (signals (happen e w) !! j) = listeners <$> (signals w !! j).
Proof. destruct e; simpl; [reflexivity|]. apply abort_listeners. Qed.

Lemma in_flight_listeners watch (events : list Event) (w : World) (j : SignalId) :
  listeners <$> (signals (in_flight watch events w).2 !! j)
  = listeners <$> (signals w !! j).
Proof.
  revert w. induction events as [|e rest IH]; intros w.
  - rewrite in_flight_nil. destruct (is_aborted _ _); apply run_timers_listeners.
  - rewrite in_flight_cons. destruct (is_aborted _ _); [apply run_timers_listeners|].
    now rewrite IH, happen_listeners, run_timers_listeners.
Qed.

(** However it ends, [request] leaves the listeners of every signal as it
    had set them up. *)
Lemma request_keeps_listeners c config (w : World) p w0 (j : SignalId) :
  request_prepare c config w = (Return p, w0) →
  listeners <$> (signals (request c config w).2 !! j)
  = listeners <$> (signals w0 !! j).
Proof.
  intros Hp. unfold request. rewrite Hp. unfold request_try.
  pose proof (fetch_world (fetch_call c config (prep_url p) (prep_signal p)) w0) as Hw1.
  pose proof (in_flight_listeners (prep_signal p)
                (flight (network w0 (length (fetches w0))))
                (log_fetch (fetch_call c config (prep_url p) (prep_signal p)) w0) j) as H1.
  change (call_signal (fetch_call c config (prep_url p) (prep_signal p)))
    with (prep_signal p) in Hw1.
  rewrite <- Hw1 in H1. change (signals (log_fetch _ w0)) with (signals w0) in H1.
  destruct (fetch _ w0) as [[resp|r] w1]; simpl in H1.
  - pose proof (parse_body_world resp (prep_signal p)
                  (clearTimeout (prep_timeoutId p) w1)) as Hw3.
    pose proof (in_flight_listeners (prep_signal p) (reading resp)
                  (clearTimeout (prep_timeoutId p) w1) j) as H3.
    rewrite <- Hw3, clearTimeout_signals, H1 in H3.
    destruct (parse_body _ _ _) as [[data|r] w3]; simpl in H3.
    + destruct (negb (ok resp)); simpl; [|exact H3].
      destruct (fromResponse _ _) as [e|t]; simpl;
        [now rewrite clearTimeout_signals|].
      pose proof (request_catch_world config (prep_timeoutId p) t w3) as Hc.
      destruct (request_catch _ _ _ _) as [t' w4]. simpl in *. subst w4.
      now rewrite clearTimeout_signals.
    + pose proof (request_catch_world config (prep_timeoutId p) (thrown_of r) w3) as Hc.
      destruct (request_catch _ _ _ _) as [t w4]. simpl in *. subst w4.
      now rewrite clearTimeout_signals.
  - pose proof (request_catch_world config (prep_timeoutId p) (thrown_of r) w1) as Hc.
    destruct (request_catch _ _ _ _) as [t w4]. simpl in *. subst w4.
    now rewrite clearTimeout_signals.
Qed.

Lemma request_prepare_listens c config (w : World) (s : SignalId) us :
  url_parses w (compose_url (baseUrl c) (path config)) = true →
  signal config = Some s →
  signals w !! s = Some us →
  ∃ p w0, request_prepare c config w = (Return p, w0)
    ∧ listeners <$> (signals w0 !! s)
      = Some (listeners us ++ [AbortOf (prep_signal p)]).
Proof.
  intros Hu Hsig Hs. unfold request_prepare. rewrite Hu, Hsig.
  set (w2 := (setTimeout (AbortOf (length (signals w))) (timeout c)
                (AbortController_new w).2).2).
  assert (Hs2 : signals w2 !! s = Some us).
  { simpl. now apply lookup_app_l_Some. }
  assert (Hn2 : signals w2 !! length (signals w) = Some (mkSignal false [])).
  { simpl. now apply list_lookup_middle. }
  assert (Hne : s ≠ length (signals w)).
  { apply lookup_lt_Some in Hs. lia. }
  destruct (combineSignals_heap w2 s _ us Hs2 Hn2 Hne)
    as (w' & Hcomb & _ & _ & _ & _ & Hheap).
  cbv beta iota delta [AbortController_new setTimeout].
  change (combineSignals s _ _) with (combineSignals s (length (signals w)) w2).
  rewrite Hcomb. do 2 eexists. split; [reflexivity|].
  cbn [prep_signal]. rewrite Hheap.
  rewrite list_lookup_insert_ne by (intros E; apply Hne; now rewrite E).
  rewrite list_lookup_insert_eq; [reflexivity|].
  rewrite length_app. apply lookup_lt_Some in Hs2. lia.
Qed.

(** X11: every request made with a caller's signal adds one listener to
    that signal, the one that aborts the signal given to [fetch], and never
    takes it off again, however the request ends. *)
Theorem request_leaves_its_listener c config (w : World) (s : SignalId) us :
  url_parses w (compose_url (baseUrl c) (path config)) = true →
  signal config = Some s →
  signals w !! s = Some us →
  ∃ call, fetches (request c config w).2 = fetches w ++ [call]
    ∧ listeners <$> (signals (request c config w).2 !! s)
      = Some (listeners us ++ [AbortOf (call_signal call)]).
Proof.
  intros Hu Hsig Hs.
  destruct (request_prepare_listens c config w s us Hu Hsig Hs) as (p & w0 & Hp & Hl).
  exists (fetch_call c config (prep_url p) (prep_signal p)). split.
  - now apply request_fetches with (w0 := w0).
  - now rewrite (request_keeps_listeners _ _ _ _ _ _ Hp).
Qed.

Lemma request_leaves_its_listener_witness :
  listeners <$> (signals (request sample_client submit_config
                            (caller_world false prompt_net)).2 !! 0%nat)
  = Some [AbortOf 2%nat].
Proof.
  destruct (request_leaves_its_listener sample_client submit_config
              (caller_world false prompt_net) 0%nat (mkSignal false []))
    as (call & Hlog & Hl).
  - reflexivity.
  - reflexivity.
  - reflexivity.
  - rewrite Hl. f_equal. simpl. f_equal.
    assert (Hc : fetches (request sample_client submit_config
                            (caller_world false prompt_net)).2
                 = [fetch_call sample_client submit_config
                      (mkURL "https://x/v2/tts" []) 2%nat])
      by (vm_compute; reflexivity).
    rewrite Hc in Hlog. simpl in Hlog. injection Hlog as <-. reflexivity.
Defined.

(** ** When only time passes *)

Lemma set_now_signals (t : Z) (w : World) : signals (set_now t w) = signals w.
Proof. reflexivity. Qed.

Ltac strip_signals :=
  repeat (rewrite clearTimeout_signals || rewrite set_now_signals).

(** X12: the SDK aborts only controllers of its own: while only time
    passes, the caller's signal is still not aborted when the request is
    over, also when the request has timed out. *)
Theorem request_never_aborts_caller_signal c config (w : World)
    (s : SignalId) (ms : list N) :
  url_parses w (compose_url (baseUrl c) (path config)) = true →
  timers_idle w →
  signal config = Some s →
  caller_silent (Some s) w →
  flight (network w (length (fetches w))) = List.map Tick ms →
  (∀ resp, arrival (network w (length (fetches w))) = Resolves resp →
           ∃ ms', reading resp = List.map Tick ms') →
  is_aborted s (signals (request c config w).2) = false.
Proof.
  intros Hu Hidle Hsig Hsilent Hflight Hread.
  rewrite <- Hsig in Hsilent.
  destruct (request_prepare_facts c config w Hu Hsilent)
    as (p & w0 & Hp & Hnow & Hfet & Hnet & Htid & Htim & Hlive & Hfire & Hcaller).
  rewrite Hsig in Hcaller. destruct Hcaller as (Hs0 & Hkeep & _ & _).
  set (call := fetch_call c config (prep_url p) (prep_signal p)).
  unfold request. rewrite Hp. unfold request_try. fold call.
  destruct (Z.lt_ge_cases (total ms) (timer_delay (timeout c))) as [Hshort|Hlong].
  - (* the answer is in time *)
    rewrite (fetch_in_time call w0 ms).
    + rewrite Hnet, Hfet.
      set (w1 := set_now (now w0 + total ms) (log_fetch call w0)).
      destruct (arrival (network w (length (fetches w)))) as [resp|r] eqn:Harr.
      * destruct (Hread resp eq_refl) as (ms' & Hms').
        assert (Hidle2 : timers_idle (clearTimeout (prep_timeoutId p) w1)).
        { unfold timers_idle. rewrite Htid.
          rewrite (clearTimeout_last (timers w)
                     (mkTimer (now w + timer_delay (timeout c))
                        (AbortOf (prep_controller p)) true) w1 Htim).
          apply Forall_app. split; [exact Hidle | now constructor]. }
        rewrite (parse_body_in_time resp (prep_signal p) _ ms' Hms');
          [| rewrite clearTimeout_signals; exact Hlive | exact Hidle2].
        destruct (body_of resp) as [data|r]; simpl.
        -- destruct (negb (ok resp)); simpl; [|strip_signals; exact Hs0].
           destruct (fromResponse _ _) as [e|t]; simpl;
             [strip_signals; exact Hs0|].
           rewrite request_catch_world_pair. simpl. strip_signals. exact Hs0.
        -- rewrite request_catch_world_pair. simpl. strip_signals. exact Hs0.
      * rewrite request_catch_world_pair. simpl. strip_signals. exact Hs0.
    + now rewrite Hnet, Hfet.
    + exact Hlive.
    + intros tm Htm Hact. rewrite Htim in Htm. apply in_app_or in Htm.
      destruct Htm as [Htm|[<-|[]]]; [idle_timer | simpl; lia].
  - (* the timer fires first *)
    destruct (fetch_deadline call w0 (prep_controller p) (timers w)
                (now w + timer_delay (timeout c)) ms [])
      as (w1 & Hf & Hsig1); try assumption.
    + now rewrite Hnet, Hfet, app_nil_r.
    + lia.
    + rewrite Hf, request_catch_world_pair. simpl. strip_signals.
      now rewrite Hsig1.
Qed.

Lemma request_never_aborts_caller_signal_witness :
  (request sample_client submit_config (caller_world false stalling_net)).1
    = Throw (ThrownAudixa timeout_error)
  ∧ is_aborted 0 (signals (request sample_client submit_config
                             (caller_world false stalling_net)).2) = false.
Proof.
  split; [vm_compute; reflexivity|].
  apply (request_never_aborts_caller_signal sample_client submit_config
           (caller_world false stalling_net) 0%nat [10000%N; 25000%N]).
  - reflexivity.
  - constructor.
  - reflexivity.
  - exists (mkSignal false []). split; reflexivity.
  - reflexivity.
  - intros resp [= <-]. exists []. reflexivity.
Defined.

(** ** The timeout option *)

(** X13: a timeout option of zero does not switch the timeout off: the
    client is built exactly as with no timeout option, with the default of
    30000 ms, and a request still in flight after more than 30000 ms ends
    in [TIMEOUT]; a negative option is kept as it is. *)
Theorem zero_timeout_means_default (key : string) (b : option string)
    (config : RequestConfig) (w : World) (ms : list N) (rest : list Event) :
  key ≠ "" →
  (∀ u, url_parses w u = true) →
  timers_idle w →
  caller_silent (signal config) w →
  flight (network w (length (fetches w))) = List.map Tick ms ++ rest →
  30000 < total ms →
  ∃ c,
    HttpClient_new (Js.Str key) (Some (mkOptions b (Some 0))) = Return c
    ∧ HttpClient_new (Js.Str key) (Some (mkOptions b None)) = Return c
    ∧ timeout c = 30000
    ∧ (request c config w).1 = Throw (ThrownAudixa timeout_error)
    ∧ ∀ t, t < 0 →
        ∃ c', HttpClient_new (Js.Str key) (Some (mkOptions b (Some t))) = Return c'
              ∧ timeout c' = t.
Proof.
  intros Hkey Hu Hidle Hsilent Hflight Hlong.
  assert (Hguard : negb (Js.truthy (Js.Str key)) || negb (Js.is_string (Js.Str key))
                   = false).
  { simpl. destruct (String.eqb_spec key ""); [contradiction | reflexivity]. }
  set (c := mkClient (baseUrl_or_default (Some (mkOptions b (Some 0)))) 30000 key).
  exists c.
  split; [unfold HttpClient_new; rewrite Hguard; reflexivity|].
  split; [unfold HttpClient_new; rewrite Hguard; reflexivity|].
  split; [reflexivity|]. split.
  - destruct (request_prepare_facts c config w (Hu _) Hsilent)
      as (p & w0 & Hp & Hnow & Hfet & Hnet & Htid & Htim & Hlive & Hfire & Hcaller).
    destruct (fetch_deadline (fetch_call c config (prep_url p) (prep_signal p)) w0
                (prep_controller p) (timers w) (now w + timer_delay (timeout c)) ms rest)
      as (w1 & Hf & Hsig); try assumption.
    + now rewrite Hnet, Hfet.
    + simpl timeout. rewrite timer_delay_in_range by (unfold TIMEOUT_MAX; lia). lia.
    + rewrite (request_fetch_aborted c config w p w0 w1 Hp Hf).
      unfold signal_aborted. destruct (signal config) as [s|]; [|reflexivity].
      destruct Hcaller as (_ & Hkeep & _). now rewrite Hsig, Hkeep.
  - intros t Ht. eexists. split.
    + unfold HttpClient_new. rewrite Hguard. reflexivity.
    + simpl. destruct (Z.eqb_spec t 0); [lia | reflexivity].
Qed.

Lemma zero_timeout_means_default_witness :
  ∃ c, HttpClient_new (Js.Str "key") (Some (mkOptions None (Some 0))) = Return c
    ∧ timeout c = 30000
    ∧ (request c submit_config (caller_world false stalling_net)).1
      = Throw (ThrownAudixa timeout_error).
Proof.
  destruct (zero_timeout_means_default "key" None submit_config
              (caller_world false stalling_net) [10000%N; 25000%N] [])
    as (c & Hc & _ & Ht & Hr & _).
  - discriminate.
  - intros u. reflexivity.
  - constructor.
  - exists (mkSignal false []). split; reflexivity.
  - reflexivity.
  - reflexivity.
  - exists c. split; [exact Hc|]. split; [exact Ht | exact Hr].
Defined.

(** ** The polling loop, further *)

(** An exchange the network plays without incident is a completed one. *)
Lemma answered_completes c config (w : World) resp data elapsed :
  url_parses w (compose_url (baseUrl c) (path config)) = true →
  timers_idle w →
  caller_silent (signal config) w →
  answered_by (network w (length (fetches w))) (timeout c) resp data elapsed →
  completes c config w resp data.
Proof.
  intros Hu Hidle Hsilent (ms & ms' & Hflight & Hshort & Harr & Hread & Hbody & _).
  destruct (request_prepare_facts c config w Hu Hsilent)
    as (p & w0 & Hp & Hnow & Hfet & Hnet & Htid & Htim & Hlive & _ & _).
  set (call := fetch_call c config (prep_url p) (prep_signal p)).
  set (w1 := set_now (now w0 + total ms) (log_fetch call w0)).
  exists p, w0, w1, (set_now (now (clearTimeout (prep_timeoutId p) w1) + total ms')
                       (clearTimeout (prep_timeoutId p) w1)).
  split; [exact Hp|]. split.
  - fold call. rewrite (fetch_in_time call w0 ms).
    + now rewrite Hnet, Hfet, Harr.
    + now rewrite Hnet, Hfet.
    + exact Hlive.
    + intros tm Htm Hact. rewrite Htim in Htm. apply in_app_or in Htm.
      destruct Htm as [Htm|[<-|[]]]; [idle_timer | simpl; lia].
  - rewrite (parse_body_in_time resp (prep_signal p) _ ms' Hread).
    + now rewrite Hbody.
    + rewrite clearTimeout_signals. exact Hlive.
    + unfold timers_idle. rewrite Htid.
      rewrite (clearTimeout_last (timers w)
                 (mkTimer (now w + timer_delay (timeout c))
                    (AbortOf (prep_controller p)) true) w1 Htim).
      apply Forall_app. split; [exact Hidle | now constructor].
Qed.

Lemma request_fetches_grow c config (w : World) :
  ∃ more, fetches (request c config w).2 = fetches w ++ more.
Proof.
  destruct (url_parses w (compose_url (baseUrl c) (path config))) eqn:Hu.
  - destruct (request_log c config w Hu) as (sg & Hlog & _). eauto.
  - rewrite (request_unparsable c config w Hu). exists []. now rewrite app_nil_r.
Qed.

Lemma sleep_fetches (interval : Z) (w : World) :
  fetches (sleep interval w) = fetches w.
Proof. reflexivity. Qed.

(** The log of calls only grows while the loop runs. *)
Lemma poll_fetches_grow fuel a gid start interval maxWait sig (w : World) :
  ∃ more, fetches (poll fuel a gid start interval maxWait sig w).2
          = fetches w ++ more.
Proof.
  revert w. induction fuel as [|fuel IH]; intros w.
  - exists []. now rewrite app_nil_r.
  - rewrite poll_S.
    destruct (now w - start >? maxWait); [exists []; now rewrite app_nil_r|].
    destruct (signal_aborted sig w); [exists []; now rewrite app_nil_r|].
    unfold getStatus.
    destruct (request_fetches_grow (client a)
                (mkConfig GET "/status" None
                   (Some [("generation_id", Js.to_string gid)]) sig) w)
      as (m1 & H1).
    destruct (request _ _ w) as [[st|t] w1]; simpl in H1; [|eauto].
    destruct (judge st); [eauto | eauto |].
    destruct (IH (sleep interval w1)) as (m2 & H2).
    exists (m1 ++ m2). rewrite H2, sleep_fetches, H1. now rewrite app_assoc.
Qed.

Section AfterTheSubmission.

Variables (a : Audixa) (payload : Js.Value) (sig : option SignalId).
Variables (w : World) (resp0 : Response) (started : Js.Value) (el0 : Z).

Hypothesis urls_parse : ∀ u, url_parses w u = true.
Hypothesis no_timer : timers_idle w.
Hypothesis caller_quiet : caller_silent sig w.
Hypothesis accepted :
  answered_by (network w (length (fetches w))) (timeout (client a))
    resp0 started el0.
Hypothesis accepted_ok : ok resp0 = true.
Hypothesis has_answer : nullish started = false.

(** The state of the world when the submission has returned. *)
Lemma after_submission :
  ∃ w1 sg,
    startTTS a payload sig w = (Return started, w1)
    ∧ fetches w1 = fetches w ++
        [mkFetchCall (mkURL (compose_url (baseUrl (client a)) "/tts") []) POST
           [("Content-Type", "application/json"); ("x-api-key", apiKey (client a))]
           (if Js.truthy payload then Some payload else None) sg]
    ∧ timers_idle w1 ∧ caller_silent sig w1 ∧ same_script w w1
    ∧ naps_taken w1 = naps_taken w
    ∧ signal_aborted sig w1 = false.
Proof.
  destruct (request_answered (client a)
              (mkConfig POST "/tts" (Some payload) None sig) w resp0 started el0)
    as (w1 & Hreq & _ & _ & Hidle1 & Hsilent1 & (sg & Hlog) & Hnaps & Hscript);
    try assumption; [apply urls_parse|].
  exists w1, sg. split; [exact Hreq|]. split; [exact Hlog|].
  repeat (split; [assumption|]).
  apply caller_silent_alt in Hsilent1. simpl in Hsilent1.
  destruct sig; [apply Hsilent1 | reflexivity].
Qed.

Lemma generateTTS_after_submission fuel every maxW w1 :
  startTTS a payload sig w = (Return started, w1) →
  generateTTS fuel a payload (Some (mkGenerateOptions every maxW sig)) w
  = poll fuel a (Js.get started "generation_id") (now w1)
      (default 1000 every) (default 120000 maxW) sig w1.
Proof.
  intros Hs. rewrite generateTTS_with_options, Hs, has_answer. reflexivity.
Qed.

End AfterTheSubmission.

(** X14: when the submission has been answered and the maximum wait is
    not negative, the next call is a status fetch for the job the answer
    named: the string it carried as [generation_id], unchecked, and the
    text "undefined" when it carried no such field. *)
Theorem first_poll_asks_for_submitted_id (a : Audixa) (payload : Js.Value)
    (every maxW : option Z) (sig : option SignalId) (w : World)
    (resp0 : Response) (started : Js.Value) (el0 : Z) (fuel : nat) (id : string) :
  (∀ u, url_parses w u = true) →
  timers_idle w →
  caller_silent sig w →
  answered_by (network w (length (fetches w))) (timeout (client a))
    resp0 started el0 →
  ok resp0 = true →
  nullish started = false →
  0 <= default 120000 maxW →
  Js.get started "generation_id" = Js.Str id
  ∨ (Js.get started "generation_id" = Js.Undefined ∧ id = "undefined") →
  ∃ submit sg more,
    fetches (generateTTS (S fuel) a payload
               (Some (mkGenerateOptions every maxW sig)) w).2
    = fetches w ++
        submit ::
        mkFetchCall
          (mkURL (compose_url (baseUrl (client a)) "/status")
             [("generation_id", id)])
          GET
          [("Content-Type", "application/json"); ("x-api-key", apiKey (client a))]
          None sg
        :: more
    ∧ call_method submit = POST.
Proof.
  intros Hu Hidle Hsilent Hans Hok Hstarted Hwait Hid.
  assert (Htext : Js.to_string (Js.get started "generation_id") = id).
  { destruct Hid as [-> | [-> ->]]; reflexivity. }
  destruct (after_submission a payload sig w resp0 started el0
              Hu Hidle Hsilent Hans Hok)
    as (w1 & sg0 & Hs & Hlog1 & Hidle1 & Hsilent1 & Hscript & _ & Hsig).
  rewrite (generateTTS_after_submission a payload sig w started Hstarted _ _ _ w1 Hs).
  rewrite poll_S, Z.sub_diag.
  destruct (Z.gtb_spec 0 (default 120000 maxW)) as [Hneg|_]; [lia|].
  rewrite Hsig. unfold getStatus. rewrite Htext.
  set (config := mkConfig GET "/status" None _ sig).
  assert (Hu1 : url_parses w1 (compose_url (baseUrl (client a)) (path config)) = true).
  { destruct Hscript as (_ & _ & ->). apply Hu. }
  destruct (request_log (client a) config w1 Hu1) as (sg & Hlog2 & _).
  rewrite Hlog1 in Hlog2.
  eexists _, sg.
  assert (Hdone : ∀ m, fetches (request (client a) config w1).2 ++ m
            = fetches w ++
                mkFetchCall (mkURL (compose_url (baseUrl (client a)) "/tts") [])
                  POST
                  [("Content-Type", "application/json");
                   ("x-api-key", apiKey (client a))]
                  (if Js.truthy payload then Some payload else None) sg0
                :: mkFetchCall
                     (mkURL (compose_url (baseUrl (client a)) "/status")
                        [("generation_id", id)])
                     GET
                     [("Content-Type", "application/json");
                      ("x-api-key", apiKey (client a))]
                     None sg
                :: m).
  { intros m. rewrite Hlog2, <- !app_assoc. reflexivity. }
  destruct (request (client a) config w1) as [[st|t] w2]; simpl in Hdone.
  - destruct (judge st).
    + exists []. split; [rewrite <- Hdone; now rewrite app_nil_r | reflexivity].
    + exists []. split; [rewrite <- Hdone; now rewrite app_nil_r | reflexivity].
    + destruct (poll_fetches_grow fuel a (Js.get started "generation_id") (now w1)
                  (default 1000 every) (default 120000 maxW) sig
                  (sleep (default 1000 every) w2)) as (m & Hm).
      exists m. split; [rewrite Hm, sleep_fetches; apply Hdone | reflexivity].
  - exists []. split; [rewrite <- Hdone; now rewrite app_nil_r | reflexivity].
Qed.

Lemma first_poll_asks_for_submitted_id_witness :
  (∃ submit sg more,
     fetches (generateTTS 1 sample_audixa sample_payload
                (Some (mkGenerateOptions None None None)) generating_world).2
     = submit ::
       mkFetchCall (mkURL "https://x/v2/status" [("generation_id", "gen-1")]) GET
         [("Content-Type", "application/json"); ("x-api-key", "key")] None sg
       :: more)
  ∧ (∃ submit sg more,
       fetches (generateTTS 1 sample_audixa sample_payload
                  (Some (mkGenerateOptions None None None)) anonymous_world).2
       = submit ::
         mkFetchCall (mkURL "https://x/v2/status" [("generation_id", "undefined")]) GET
           [("Content-Type", "application/json"); ("x-api-key", "key")] None sg
         :: more).
Proof.
  split.
  - destruct (first_poll_asks_for_submitted_id sample_audixa sample_payload None None
                None generating_world (json_response 200 started_body) started_body
                20 0 "gen-1")
      as (submit & sg & more & Hlog & _).
    + intros u. reflexivity.
    + constructor.
    + exact I.
    + exists [20%N], []. split; [|split; [|split; [|split; [|split]]]];
        vm_compute; reflexivity.
    + reflexivity.
    + reflexivity.
    + vm_compute. discriminate.
    + left. reflexivity.
    + exists submit, sg, more. rewrite Hlog. reflexivity.
  - destruct (first_poll_asks_for_submitted_id sample_audixa sample_payload None None
                None anonymous_world (json_response 200 (Js.Obj [])) (Js.Obj []) 20 0
                "undefined")
      as (submit & sg & more & Hlog & _).
    + intros u. reflexivity.
    + constructor.
    + exact I.
    + exists [20%N], []. split; [|split; [|split; [|split; [|split]]]];
        vm_compute; reflexivity.
    + reflexivity.
    + reflexivity.
    + vm_compute. discriminate.
    + right. split; reflexivity.
    + exists submit, sg, more. rewrite Hlog. reflexivity.
Defined.

(** X15: with a negative maximum wait the text is still submitted, and
    the time-out is raised as soon as the submission has returned, without
    a single status fetch. *)
Theorem negative_wait_submits_and_gives_up (a : Audixa) (payload : Js.Value)
    (every : option Z) (maxW : Z) (sig : option SignalId) (w : World)
    (resp0 : Response) (started : Js.Value) (el0 : Z) (fuel : nat) :
  (∀ u, url_parses w u = true) →
  timers_idle w →
  caller_silent sig w →
  answered_by (network w (length (fetches w))) (timeout (client a))
    resp0 started el0 →
  ok resp0 = true →
  nullish started = false →
  maxW < 0 →
  (generateTTS (S fuel) a payload (Some (mkGenerateOptions every (Some maxW) sig)) w).1
    = Some (Throw (timed_out maxW))
  ∧ ∃ submit,
      fetches (generateTTS (S fuel) a payload
                 (Some (mkGenerateOptions every (Some maxW) sig)) w).2
      = fetches w ++ [submit]
      ∧ call_method submit = POST.
Proof.
  intros Hu Hidle Hsilent Hans Hok Hstarted Hneg.
  destruct (after_submission a payload sig w resp0 started el0
              Hu Hidle Hsilent Hans Hok)
    as (w1 & sg0 & Hs & Hlog1 & _).
  rewrite (generateTTS_after_submission a payload sig w started Hstarted _ _ _ w1 Hs).
  rewrite poll_S, Z.sub_diag. simpl default.
  destruct (Z.gtb_spec 0 maxW) as [_|Hpos]; [|lia].
  split; [reflexivity|]. eexists. split; [exact Hlog1 | reflexivity].
Qed.

Lemma negative_wait_submits_and_gives_up_witness :
  (generateTTS 1 sample_audixa sample_payload
     (Some (mkGenerateOptions None (Some (-1)) None)) generating_world).1
    = Some (Throw (ThrownError "Error" "Generation timed out after -1ms")).
Proof.
  refine (proj1 (negative_wait_submits_and_gives_up sample_audixa sample_payload None
                   (-1) None generating_world (json_response 200 started_body)
                   started_body 20 0 _ _ _ _ _ _ _)).
  - intros u. reflexivity.
  - constructor.
  - exact I.
  - exists [20%N], []. split; [|split; [|split; [|split; [|split]]]];
      vm_compute; reflexivity.
  - reflexivity.
  - reflexivity.
  - lia.
Defined.



(** ** Cancelling generate and wait *)

Lemma fold_abort_hits (l : list SignalId) (s : SignalId) (heap : list AbortSignal) :
  In s l → (s < length heap)%nat →
  is_aborted s (fold_left (fun h x => signal_abort x h) l heap) = true.
Proof.
  revert heap. induction l as [|x l IH]; intros heap Hin Hlt; [destruct Hin|].
  simpl. destruct Hin as [->|Hin].
  - apply (fold_left_invariant (fun h => is_aborted s h = true)).
    + intros h y Hh. now apply signal_abort_mono.
    + now apply signal_abort_hits.
  - apply IH; [exact Hin|]. now rewrite signal_abort_length.
Qed.

(** A sleep during which the caller aborts. *)
Lemma sleep_aborting (interval : Z) (w : World) (s : SignalId) :
  timers_idle w →
  In s (nap_aborts (naps w (naps_taken w))) →
  (s < length (signals w))%nat →
  is_aborted s (signals (sleep interval w)) = true
  ∧ now (sleep interval w)
    = now w + timer_delay interval + Z.of_N (oversleep (naps w (naps_taken w))).
Proof.
  intros Hidle Hin Hlt. unfold sleep.
  rewrite run_timers_none_due.
  - simpl. split; [|reflexivity]. now apply fold_abort_hits.
  - intros tm Htm. apply idle_not_due, (idle_In (timers w) tm Hidle Htm).
Qed.



(** The caller aborts while a request is in flight and before its timer
    is due. *)
Lemma request_cancelled_in_flight c config (w : World) (s : SignalId)
    (ms : list N) rest :
  url_parses w (compose_url (baseUrl c) (path config)) = true →
  timers_idle w →
  signal config = Some s →
  caller_silent (Some s) w →
  flight (network w (length (fetches w)))
    = List.map Tick ms ++ CallerAborts s :: rest →
  total ms < timer_delay (timeout c) →
  (request c config w).1 = Throw (ThrownAudixa cancelled_error).
Proof.
  intros Hu Hidle Hs Hsilent Hflight Hshort. rewrite <- Hs in Hsilent.
  destruct (request_prepare_facts c config w Hu Hsilent)
    as (p & w0 & Hp & Hnow & Hfet & Hnet & Htid & Htim & Hlive & Hfire & Hcaller).
  rewrite Hs in Hcaller. destruct Hcaller as (_ & _ & Hreach & Hself).
  destruct (fetch_caller_aborts
              (fetch_call c config (prep_url p) (prep_signal p)) w0 ms s rest)
    as (w1 & Hf & Hsig); try assumption.
  - now rewrite Hnet, Hfet.
  - intros tm Htm Hact. rewrite Htim in Htm. apply in_app_or in Htm.
    destruct Htm as [Htm|[<-|[]]]; [idle_timer | simpl; lia].
  - rewrite (request_fetch_aborted c config w p w0 w1 Hp Hf), Hs.
    unfold signal_aborted. now rewrite Hsig, Hself.
Qed.



(** ** The default endpoint *)

(** X19: a client built without a base URL, or with an empty one, sends
    its requests to [https://api.audixa.ai/v2], and every request carries
    the API key it was built with in the header [x-api-key]. *)
Theorem default_client_calls_vendor_endpoint (key : string)
    (options : option AudixaOptions) (payload : Js.Value)
    (sig : option SignalId) (w : World) :
  key ≠ "" →
  options = None ∨ (∃ t, options = Some (mkOptions None t))
  ∨ (∃ t, options = Some (mkOptions (Some "") t)) →
  (∀ u, url_parses w u = true) →
  ∃ a sg,
    Audixa_new (Js.Str key) options = Return a
    ∧ fetches (startTTS a payload sig w).2 = fetches w ++
        [mkFetchCall (mkURL "https://api.audixa.ai/v2/tts" []) POST
           [("Content-Type", "application/json"); ("x-api-key", key)]
           (if Js.truthy payload then Some payload else None) sg].
Proof.
  intros Hkey Hopt Hu.
  assert (Hbase : baseUrl_or_default options = DEFAULT_BASE_URL).
  { destruct Hopt as [-> | [(t & ->) | (t & ->)]]; reflexivity. }
  assert (Hnew : Audixa_new (Js.Str key) options
                 = Return (mkAudixa (mkClient DEFAULT_BASE_URL
                                       (timeout_or_default options) key))).
  { unfold Audixa_new, HttpClient_new. simpl.
    destruct (String.eqb_spec key ""); [contradiction|]. simpl.
    now rewrite Hbase. }
  destruct (request_log (mkClient DEFAULT_BASE_URL (timeout_or_default options) key)
              (mkConfig POST "/tts" (Some payload) None sig) w (Hu _))
    as (sg & Hlog & _).
  eexists _, sg. split; [exact Hnew|]. exact Hlog.
Qed.

Lemma default_client_calls_vendor_endpoint_witness :
  ∃ a sg,
    Audixa_new (Js.Str "your-api-key") None = Return a
    ∧ fetches (startTTS a sample_payload None generating_world).2
      = [mkFetchCall (mkURL "https://api.audixa.ai/v2/tts" []) POST
           [("Content-Type", "application/json"); ("x-api-key", "your-api-key")]
           (Some sample_payload) sg].
Proof.
  destruct (default_client_calls_vendor_endpoint "your-api-key" None sample_payload
              None generating_world) as (a & sg & Ha & Hlog).
  - discriminate.
  - now left.
  - intros u. reflexivity.
  - exists a, sg. split; [exact Ha | exact Hlog].
Defined.

(** ** The job completes *)

Lemma sleep_quiet_exact (interval : Z) (w : World) :
  timers_idle w →
  nap_aborts (naps w (naps_taken w)) = [] →
  now (sleep interval w)
    = now w + timer_delay interval + Z.of_N (oversleep (naps w (naps_taken w)))
  ∧ naps_taken (sleep interval w) = S (naps_taken w).
Proof.
  intros Hidle Hnap. unfold sleep. rewrite Hnap. cbn [fold_left].
  rewrite run_timers_none_due.
  - split; reflexivity.
  - intros tm Htm. apply idle_not_due, (idle_In (timers w) tm Hidle Htm).
Qed.

Section PollingUntilCompleted.

Variables (a : Audixa) (gid : Js.Value) (sig : option SignalId).
Variables (start interval maxWait round_time : Z) (w_init : World).
Variables (final : Js.Value).

Hypothesis urls_parse : ∀ u, url_parses w_init u = true.
Hypothesis caller_never_aborts : ∀ k, nap_aborts (naps w_init k) = [].
Hypothesis final_is_done :
  Js.get final "status" = Js.Str "Completed"
  ∧ Js.truthy (Js.get final "url") = true.

Lemma poll_completes (n : nat) :
  ∀ (w1 : World) (extra : nat),
    same_script w_init w1 → timers_idle w1 → caller_silent sig w1 →
    rounds_then_final w_init a interval round_time final n
      (length (fetches w1)) (naps_taken w1) →
    0 <= round_time →
    now w1 - start + Z.of_nat n * round_time <= maxWait →
    ∃ w' polls,
      poll (S n + extra) a gid start interval maxWait sig w1
        = (Some (Return (Js.get final "url")), w')
      ∧ fetches w' = fetches w1 ++ polls
      ∧ length polls = S n
      ∧ Forall (status_call a) polls.
Proof.
  induction n as [|n IH];
    intros w1 extra Hscript Hidle Hsilent [Hrounds (respf & elf & Hfinal & Hokf)]
      Hround Hbudget.
  - (* the answer is there *)
    destruct Hscript as (Hnet & Hnaps & Hurl).
    destruct (request_answered (client a)
                (mkConfig GET "/status" None
                   (Some [("generation_id", Js.to_string gid)]) sig)
                w1 respf final elf)
      as (w2 & Hreq & _ & _ & _ & _ & (sg & Hlog) & _ & _); try assumption.
    { rewrite Hurl. apply urls_parse. }
    { rewrite Hnet. now rewrite Nat.add_0_r in Hfinal. }
    exists w2. eexists. split; [|split; [exact Hlog|split; [reflexivity|]]].
    + change (S 0 + extra)%nat with (S extra). rewrite poll_S.
      destruct (Z.gtb_spec (now w1 - start) maxWait) as [Hlate|_]; [lia|].
      assert (Hc : signal_aborted sig w1 = false).
      { apply caller_silent_alt in Hsilent. destruct sig; [apply Hsilent | reflexivity]. }
      rewrite Hc. unfold getStatus. rewrite Hreq.
      assert (Hj : judge final = Done (Js.get final "url")).
      { apply judge_done. destruct final_is_done as [Hs Ht].
        repeat split; try assumption.
        destruct final; try discriminate Hs. reflexivity. }
      now rewrite Hj.
    + constructor; [split; reflexivity | constructor].
  - (* one more round *)
    destruct (Hrounds 0%nat ltac:(lia)) as (resp & st & el & Hans & Hok & Hst & Htime).
    rewrite !Nat.add_0_r in *.
    destruct Hscript as (Hnet & Hnaps & Hurl).
    destruct (request_answered (client a)
                (mkConfig GET "/status" None
                   (Some [("generation_id", Js.to_string gid)]) sig)
                w1 resp st el)
      as (w2 & Hreq & Hnow2 & Hel & Hidle2 & Hsilent2 & (sg & Hlog2)
          & Hnaps2 & Hscript2); try assumption.
    { rewrite Hurl. apply urls_parse. }
    { now rewrite Hnet. }
    destruct Hscript2 as (Hnet2 & Hnapsf2 & Hurl2).
    assert (Hquiet : nap_aborts (naps w2 (naps_taken w2)) = []).
    { rewrite Hnapsf2, Hnaps. apply caller_never_aborts. }
    destruct (sleep_quiet interval w2 Hidle2 Hquiet)
      as (_ & Hsig3 & Htim3 & Hfet3 & Hscript3).
    destruct (sleep_quiet_exact interval w2 Hidle2 Hquiet) as (Hnow3 & Hnaps3).
    rewrite Hnapsf2, Hnaps, Hnaps2 in Hnow3.
    destruct (IH (sleep interval w2) extra) as (w' & polls & Hpoll & Hlog & Hlen & Hall).
    + apply (same_script_trans w_init w2); [|exact Hscript3].
      apply (same_script_trans w_init w1); repeat split; assumption.
    + unfold timers_idle. now rewrite Htim3.
    + apply caller_silent_alt. apply caller_silent_alt in Hsilent2.
      now rewrite Hsig3.
    + rewrite Hfet3, Hlog2, length_app, Hnaps3, Hnaps2. simpl. split.
      * intros k Hk. destruct (Hrounds (S k) ltac:(lia))
          as (resp' & st' & el' & Hans' & Hok' & Hst' & Htime').
        exists resp', st', el'.
        replace (length (fetches w1) + 1 + k)%nat with (length (fetches w1) + S k)%nat
          by lia.
        replace (S (naps_taken w1) + k)%nat with (naps_taken w1 + S k)%nat by lia.
        auto.
      * exists respf, elf.
        replace (length (fetches w1) + 1 + n)%nat with (length (fetches w1) + S n)%nat
          by lia.
        auto.
    + exact Hround.
    + rewrite Hnow3, Hnow2. lia.
    + exists w'. eexists. split; [|split; [|split]].
      * change (S (S n) + extra)%nat with (S (S n + extra)). rewrite poll_S.
        destruct (Z.gtb_spec (now w1 - start) maxWait) as [Hlate|_]; [nia|].
        assert (Hc : signal_aborted sig w1 = false).
        { apply caller_silent_alt in Hsilent.
          destruct sig; [apply Hsilent | reflexivity]. }
        rewrite Hc. unfold getStatus. rewrite Hreq.
        rewrite (judge_non_terminal st Hst). exact Hpoll.
      * rewrite Hlog, Hfet3, Hlog2, <- app_assoc. reflexivity.
      * simpl. now rewrite Hlen.
      * constructor; [split; reflexivity | exact Hall].
Qed.

End PollingUntilCompleted.



(** ** The kind that is never raised *)

(** X21: no code path produces [UNAUTHORIZED]; every [AudixaError] raised
    by construction, by dispatch, by submit, status and voices, or by
    generate-and-wait carries one of the other eight kinds, and
    construction raises nothing but an [AudixaError]. *)
Theorem unauthorized_is_never_produced :
  ¬ In UNAUTHORIZED produced_kinds
  ∧ (∀ key options t, Audixa_new key options = Throw t →
       ∃ e, t = ThrownAudixa e ∧ In (code e) produced_kinds)
  ∧ (∀ c config (w : World) t w', request c config w = (Throw t, w') →
       kind_is_produced t ∧ thrown_kind t ≠ Some UNAUTHORIZED)
  ∧ (∀ a payload sig (w : World) t w', startTTS a payload sig w = (Throw t, w') →
       kind_is_produced t ∧ thrown_kind t ≠ Some UNAUTHORIZED)
  ∧ (∀ a gid sig (w : World) t w', getStatus a gid sig w = (Throw t, w') →
       kind_is_produced t ∧ thrown_kind t ≠ Some UNAUTHORIZED)
  ∧ (∀ a model sig (w : World) t w', getVoices a model sig w = (Throw t, w') →
       kind_is_produced t ∧ thrown_kind t ≠ Some UNAUTHORIZED)
  ∧ (∀ fuel a payload options (w : World) t w',
       generateTTS fuel a payload options w = (Some (Throw t), w') →
       kind_is_produced t ∧ thrown_kind t ≠ Some UNAUTHORIZED).
Proof.
  assert (Hkind : ∀ t, kind_is_produced t → thrown_kind t ≠ Some UNAUTHORIZED).
  { intros [e| |] Hk; simpl; try discriminate.
    intros [= Hc]. apply unauthorized_not_produced.
    rewrite <- Hc. now apply Hk. }
  assert (Hreq : ∀ c config (w : World) t w', request c config w = (Throw t, w') →
            kind_is_produced t ∧ thrown_kind t ≠ Some UNAUTHORIZED).
  { intros c config w t w' H. apply request_kind_is_produced in H. auto. }
  split; [exact unauthorized_not_produced|].
  split.
  { intros key options t. unfold Audixa_new, HttpClient_new.
    destruct (_ || _); [|discriminate].
    intros [= <-]. eexists. split; [reflexivity | simpl; tauto]. }
  split; [exact Hreq|].
  split; [intros a payload sig; apply Hreq|].
  split; [intros a gid sig; apply Hreq|].
  split; [intros a model sig; apply Hreq|].
  intros fuel a payload options w t w' H.
  assert (Hk : kind_is_produced t); [|auto].
  unfold generateTTS in H.
  destruct (startTTS a payload _ w) as [[started|t0] w1] eqn:Hs.
  - destruct (nullish started); [injection H as <- _; intros e [=]|].
    now apply poll_kind_is_produced in H.
  - injection H as <- _. now apply request_kind_is_produced in Hs.
Qed.

Lemma unauthorized_is_never_produced_witness :
  ∃ e, (request sample_client status_config not_found_world).1
         = Throw (ThrownAudixa e)
       ∧ In (code e) produced_kinds
       ∧ code e ≠ UNAUTHORIZED.
Proof.
  assert (Hrun : request sample_client status_config not_found_world
                 = (Throw (ThrownAudixa (http_error 404 not_found_body)),
                    (request sample_client status_config not_found_world).2)).
  { vm_compute. reflexivity. }
  destruct (proj1 (proj2 (proj2 unauthorized_is_never_produced)) _ _ _ _ _ Hrun)
    as [Hkind Hnot].
  exists (http_error 404 not_found_body). split; [now rewrite Hrun|]. split.
  - now apply Hkind.
  - intros Hc. apply Hnot. unfold thrown_kind. now rewrite Hc.
Defined.
